(** * airlab-dash: the AirLab MQTT collector ([airlab_collector.py])

    A shallow embedding of the collector's normalization, validation,
    storage-retry and single-shot collection code, and the properties of
    its specification checked against it.

    Conventions of the embedding.
    - A Python [str] is a [string]; each character stands for the code
      point of the same number (code points below 256).  [lower], [strip]
      and [isspace] follow Python's tables on that range.
    - A Python [float] is a primitive binary64 [float]; conversions from
      integers and decimal literals round to nearest-even through
      [SpecFloat], as CPython's do.
    - A [dict[str, float]] is a [gmap string float].
    - Exceptions are values of [exn]; a call that may raise returns a
      [result]. *)

From Stdlib Require Import ZArith NArith Ascii String List Bool Lia Floats.
From stdpp Require Import gmap strings.

Local Open Scope string_scope.
Local Open Scope list_scope.

(** ** Python's string methods used by the collector *)

Module PyStr.

(** [str.isspace] on one character. *)
Definition isspace (c : ascii) : bool :=
  let n := N_of_ascii c in
  ((9 <=? n) && (n <=? 13) || (28 <=? n) && (n <=? 32)
   || (n =? 133) || (n =? 160))%N.

(** [str.lower] on one character: A-Z, and the upper-case letters of
    the Latin-1 supplement (all of 192-222 except the multiplication
    sign 215). *)
Definition lower_char (c : ascii) : ascii :=
  let n := N_of_ascii c in
  if ((65 <=? n) && (n <=? 90)
      || (192 <=? n) && (n <=? 222) && negb (n =? 215))%N
  then ascii_of_N (n + 32) else c.

Fixpoint lower (s : string) : string :=
  match s with
  | EmptyString => EmptyString
  | String c s' => String (lower_char c) (lower s')
  end.

(** [s.lstrip(chars)], [s.rstrip(chars)], [s.strip(chars)] with the
    character set given as a predicate. *)
Fixpoint lstrip_by (p : ascii -> bool) (s : string) : string :=
  match s with
  | EmptyString => EmptyString
  | String c s' => if p c then lstrip_by p s' else s
  end.

Fixpoint rstrip_by (p : ascii -> bool) (s : string) : string :=
  match s with
  | EmptyString => EmptyString
  | String c s' =>
      match rstrip_by p s' with
      | EmptyString => if p c then EmptyString else String c EmptyString
      | r => String c r
      end
  end.

Definition strip_by (p : ascii -> bool) (s : string) : string :=
  rstrip_by p (lstrip_by p s).

(** [s.strip()] *)
Definition strip (s : string) : string := strip_by isspace s.

(** [s.strip("/")] *)
Definition strip_slash (s : string) : string :=
  strip_by (Ascii.eqb "/"%char) s.

(** [s.split(sep)] for a one-character separator: never the empty
    list, [''.split('/') == ['']]. *)
Fixpoint split (sep : ascii) (s : string) : list string :=
  match s with
  | EmptyString => [EmptyString]
  | String c s' =>
      if Ascii.eqb c sep then EmptyString :: split sep s'
      else match split sep s' with
           | h :: t => String c h :: t
           | [] => [String c EmptyString]
           end
  end.

(** [s.startswith(p)] *)
Fixpoint startswith (s p : string) : bool :=
  match p, s with
  | EmptyString, _ => true
  | String a p', String b s' => Ascii.eqb a b && startswith s' p'
  | String _ _, EmptyString => false
  end.

(** [s[n:]] *)
Fixpoint drop (n : nat) (s : string) : string :=
  match n, s with
  | O, _ => s
  | S n', String _ s' => drop n' s'
  | S _, EmptyString => EmptyString
  end.

(** [sub in s] *)
Fixpoint contains (sub s : string) : bool :=
  startswith s sub ||
  match s with
  | EmptyString => false
  | String _ s' => contains sub s'
  end.

(** [s.endswith(p)] *)
Definition endswith (s p : string) : bool :=
  let ls := String.length s in
  let lp := String.length p in
  (lp <=? ls)%nat && String.eqb (drop (ls - lp) s) p.

End PyStr.

(** ** The alias table and the canonicalizer *)

(** [FIELD_ALIASES], in source order. *)
Definition FIELD_ALIASES : gmap string string :=
  list_to_map
    [ ("co2", "co2_ppm");
      ("carbon_dioxide", "co2_ppm");
      ("co2_ppm", "co2_ppm");
      ("temperature", "temperature_c");
      ("temp", "temperature_c");
      ("temperature_c", "temperature_c");
      ("humidity", "humidity_percent");
      ("rh", "humidity_percent");
      ("relative_humidity", "humidity_percent");
      ("humidity_percent", "humidity_percent");
      ("pressure", "pressure_hpa");
      ("pressure_hpa", "pressure_hpa");
      ("voc", "voc_index");
      ("voc_index", "voc_index");
      ("nox", "nox_index");
      ("nox_index", "nox_index") ].

(** The canonical metric names: the values of [FIELD_ALIASES]. *)
Definition canonical_metrics : list string :=
  [ "co2_ppm"; "temperature_c"; "humidity_percent";
    "pressure_hpa"; "voc_index"; "nox_index" ].

(** [canonicalize(field)]: [FIELD_ALIASES.get(field.lower().strip())]. *)
Definition canonicalize (field : string) : option string :=
  FIELD_ALIASES !! PyStr.strip (PyStr.lower field).

(** ** Exceptions and results *)

(** The exception classes that the collector's code and the library calls
    it makes can raise. [JSONDecodeError] is a subclass of [ValueError];
    [OperationalError] is the [sqlite3] class the writer catches and
    [DatabaseError] stands for the other [sqlite3] errors;
    [ConnectError] stands for whatever [client.connect] raises.
    [RecursionError] is what the decoder raises when its nesting bound
    is exceeded: in the embedding the bound is the fuel [Json.loads]
    gives, which no text exhausts ([JsonFacts.loads_raises]); the
    recursion limit of the interpreter, which the real decoder meets on
    texts nested about a thousand deep, is not part of the embedding. *)
Inductive exn : Type :=
| JSONDecodeError
| ValueError
| TypeError
| OverflowError
| RecursionError
| KeyboardInterrupt
| ConnectError
| OperationalError (msg : string)
| DatabaseError (msg : string).

Inductive result (A : Type) : Type :=
| Ok (a : A)
| Raise (e : exn).
Arguments Ok {A} a.
Arguments Raise {A} e.

#[global] Instance result_ret : MRet result := fun A a => Ok a.
#[global] Instance result_bind : MBind result := fun A B k c =>
  match c with
  | Ok a => k a
  | Raise e => Raise e
  end.

(** [isinstance(e, ValueError)] *)
Definition is_ValueError (e : exn) : bool :=
  match e with
  | JSONDecodeError | ValueError => true
  | _ => false
  end.

(** [isinstance(e, TypeError)] *)
Definition is_TypeError (e : exn) : bool :=
  match e with
  | TypeError => true
  | _ => false
  end.

(** [try: c  except <classes>: h] *)
Definition try_except {A} (c : result A) (classes : exn -> bool)
    (h : result A) : result A :=
  match c with
  | Ok a => Ok a
  | Raise e => if classes e then h else Raise e
  end.

(** ** Python's [float] *)

Module PyFloat.

Definition is_digit (c : ascii) : bool :=
  let n := N_of_ascii c in ((48 <=? n) && (n <=? 57))%N.

Definition digit_val (c : ascii) : Z := (Z.of_N (N_of_ascii c) - 48)%Z.

(** Reads the longest run of decimal digits at the head of [s], adding
    them to [acc]; returns the value, the number of digits read plus
    [n], and the rest. *)
Fixpoint digits (acc : Z) (n : nat) (s : string) : Z * nat * string :=
  match s with
  | String c s' =>
      if is_digit c then digits (10 * acc + digit_val c)%Z (S n) s'
      else (acc, n, s)
  | EmptyString => (acc, n, s)
  end.

(** [float(z)] for an [int]: round to nearest-even, [OverflowError]
    when the rounded value is beyond the largest finite double. *)
Definition of_int (z : Z) : result float :=
  match binary_normalize prec emax z 0 false with
  | S754_infinity _ => Raise OverflowError
  | sf => Ok (SF2Prim sf)
  end.

(** The double nearest to [(-1)^neg * d * 10^e], for [0 <= d]: what
    [float] returns for a decimal literal (out of range gives an
    infinity, not an exception). *)
Definition of_decimal (neg : bool) (d e : Z) : float :=
  match d with
  | Zpos p =>
      SF2Prim
        match e with
        | Zneg k =>
            SFdiv prec emax (S754_finite neg p 0)
              (S754_finite false (10 ^ k) 0)
        | _ => binary_normalize prec emax
                 (if neg then - (d * 10 ^ e) else d * 10 ^ e)%Z 0 false
        end
  | _ => if neg then (-0)%float else 0%float
  end.

(** The check of underscores in [float(s)]: an underscore stands only
    between two digits; they are then removed. *)
Fixpoint remove_underscores (prev : ascii) (s : string) : option string :=
  match s with
  | EmptyString =>
      if Ascii.eqb prev "_" then None else Some EmptyString
  | String c s' =>
      if Ascii.eqb c "_" then
        if is_digit prev then remove_underscores c s' else None
      else if Ascii.eqb prev "_" && negb (is_digit c) then None
      else option_map (String c) (remove_underscores c s')
  end.

(** What follows the [e] of a literal: an optional sign and at least one
    digit, up to the end. *)
Definition parse_exponent (s : string) : option Z :=
  let '(neg, r) :=
    match s with
    | String c r =>
        if Ascii.eqb c "-" then (true, r)
        else if Ascii.eqb c "+" then (false, r) else (false, s)
    | EmptyString => (false, s)
    end in
  match digits 0 0 r with
  | (v, S _, EmptyString) => Some (if neg then - v else v)%Z
  | _ => None
  end.

(** The literal after its sign: [inf], [infinity], [nan] in any case,
    or digits with an optional point and exponent. *)
Definition parse_unsigned (neg : bool) (s : string) : option float :=
  let ls := PyStr.lower s in
  if String.eqb ls "inf" || String.eqb ls "infinity"
  then Some (if neg then neg_infinity else infinity)
  else if String.eqb ls "nan" then Some nan
  else
    let '(ip, ni, r1) := digits 0 0 s in
    let '(m, nf, r2) :=
      match r1 with
      | String c r => if Ascii.eqb c "." then digits ip 0 r else (ip, O, r1)
      | EmptyString => (ip, O, r1)
      end in
    if (ni + nf =? 0)%nat then None
    else
      match r2 with
      | EmptyString => Some (of_decimal neg m (- Z.of_nat nf))
      | String c r3 =>
          if Ascii.eqb c "e" || Ascii.eqb c "E" then
            option_map (fun e => of_decimal neg m (e - Z.of_nat nf))
              (parse_exponent r3)
          else None
      end.

(** [float(s)] for a [str]: [ValueError] when [s] is not a literal. *)
Definition of_str (s : string) : result float :=
  match remove_underscores "000" (PyStr.strip s) with
  | None => Raise ValueError
  | Some t =>
      let '(neg, r) :=
        match t with
        | String c r =>
            if Ascii.eqb c "-" then (true, r)
            else if Ascii.eqb c "+" then (false, r) else (false, t)
        | EmptyString => (false, t)
        end in
      match parse_unsigned neg r with
      | Some f => Ok f
      | None => Raise ValueError
      end
  end.

End PyFloat.


(** ** Python values and [json.loads] *)

(** The values [json.loads] returns. A [dict] is the list of its items in
    insertion order, with distinct keys. *)
#[warnings="-register-all"]
Inductive pyval : Type :=
| PyNone
| PyBool (b : bool)
| PyInt (z : Z)
| PyFloat (f : float)
| PyStr (s : string)
| PyList (l : list pyval)
| PyDict (items : list (string * pyval)).

Module Json.

Definition dquote : ascii := ascii_of_N 34.
Definition backslash : ascii := ascii_of_N 92.

(** Writes a JSON text with apostrophes where the double quotes go. *)
Fixpoint text (s : string) : string :=
  match s with
  | EmptyString => EmptyString
  | String c s' => String (if Ascii.eqb c "'" then dquote else c) (text s')
  end.

(** [d[key] = v] on the item list: a key already present keeps its
    place and takes the new value. *)
Fixpoint dict_set (items : list (string * pyval)) (key : string)
    (v : pyval) : list (string * pyval) :=
  match items with
  | [] => [(key, v)]
  | (k, w) :: rest =>
      if String.eqb k key then (k, v) :: rest
      else (k, w) :: dict_set rest key v
  end.

Definition is_ws (c : ascii) : bool :=
  Ascii.eqb c " " || Ascii.eqb c "009" || Ascii.eqb c "010"
  || Ascii.eqb c "013".

Definition skip_ws (s : string) : string := PyStr.lstrip_by is_ws s.

Definition hex_val (c : ascii) : option N :=
  let n := N_of_ascii c in
  if ((48 <=? n) && (n <=? 57))%N then Some (n - 48)%N
  else if ((97 <=? n) && (n <=? 102))%N then Some (n - 87)%N
  else if ((65 <=? n) && (n <=? 70))%N then Some (n - 55)%N
  else None.

(** The character of a code point; code points from 256 on have no
    character in the embedding and are written [?], which is no digit,
    no white space and in no alias. *)
Definition chr (n : N) : ascii :=
  if (n <? 256)%N then ascii_of_N n else "?"%char.

Definition unescape (c : ascii) : option ascii :=
  if Ascii.eqb c dquote then Some dquote
  else if Ascii.eqb c backslash then Some backslash
  else if Ascii.eqb c "/" then Some "/"%char
  else if Ascii.eqb c "b" then Some "008"%char
  else if Ascii.eqb c "f" then Some "012"%char
  else if Ascii.eqb c "n" then Some "010"%char
  else if Ascii.eqb c "r" then Some "013"%char
  else if Ascii.eqb c "t" then Some "009"%char
  else None.

(** Where [scanstring] stands in the text: in plain characters, after a
    backslash, or in the hexadecimal digits of a [\u] escape ([k] more
    digits to read, [acc] read so far). *)
Inductive scan_mode : Type :=
| Plain
| Escaped
| Hex (k : nat) (acc : N).

Definition push (c : ascii) (r : result (string * string)) :
    result (string * string) :=
  match r with
  | Ok (t, rest) => Ok (String c t, rest)
  | Raise e => Raise e
  end.

Fixpoint scan (m : scan_mode) (s : string) : result (string * string) :=
  match s with
  | EmptyString => Raise JSONDecodeError
  | String c r =>
      match m with
      | Plain =>
          if Ascii.eqb c dquote then Ok (EmptyString, r)
          else if (N_of_ascii c <? 32)%N then Raise JSONDecodeError
          else if Ascii.eqb c backslash then scan Escaped r
          else push c (scan Plain r)
      | Escaped =>
          if Ascii.eqb c "u" then scan (Hex 3 0) r
          else match unescape c with
               | Some d => push d (scan Plain r)
               | None => Raise JSONDecodeError
               end
      | Hex k acc =>
          match hex_val c with
          | Some v =>
              let acc' := (acc * 16 + v)%N in
              match k with
              | O => push (chr acc') (scan Plain r)
              | S k' => scan (Hex k' acc') r
              end
          | None => Raise JSONDecodeError
          end
      end
  end.

(** [scanstring], strict: [s] follows the opening quote; returns the
    decoded string and what follows the closing quote. *)
Definition scanstring (s : string) : result (string * string) :=
  scan Plain s.

(** [sys.get_int_max_str_digits()]: [int] refuses longer literals with a
    [ValueError]. *)
Definition int_max_str_digits : nat := 4300.

(** The exponent of a number, after its [e]: an optional sign and at
    least one digit. *)
Definition scan_exponent (s : string) : option (Z * string) :=
  let '(neg, r) :=
    match s with
    | String c r =>
        if Ascii.eqb c "-" then (true, r)
        else if Ascii.eqb c "+" then (false, r) else (false, s)
    | EmptyString => (false, s)
    end in
  match PyFloat.digits 0 0 r with
  | (v, S _, rest) => Some (if neg then - v else v, rest)%Z
  | _ => None
  end.

(** The parts of [NUMBER_RE]: an optional minus sign, *)
Definition scan_sign (s : string) : bool * string :=
  match s with
  | String c r => if Ascii.eqb c "-" then (true, r) else (false, s)
  | EmptyString => (false, s)
  end.

(** the integer part, [0] or a digit from 1 to 9 followed by digits
    (value, number of digits, rest), *)
Definition scan_int (s : string) : option (Z * nat * string) :=
  match s with
  | String c r =>
      if PyFloat.is_digit c then
        Some (if Ascii.eqb c "0" then (0%Z, 1, r)
              else PyFloat.digits (PyFloat.digit_val c) 1 r)
      else None
  | EmptyString => None
  end.

(** an optional fraction, a point followed by at least one digit (the
    digits are added to [ip]; number of fraction digits, rest), *)
Definition scan_frac (ip : Z) (s : string) : Z * nat * string :=
  match s with
  | String d r =>
      if Ascii.eqb d "." then
        match PyFloat.digits ip 0 r with
        | (m, S k, r') => (m, S k, r')
        | _ => (ip, O, s)
        end
      else (ip, O, s)
  | EmptyString => (ip, O, s)
  end.

(** and an optional exponent. *)
Definition scan_exp (s : string) : option Z * string :=
  match s with
  | String d r =>
      if Ascii.eqb d "e" || Ascii.eqb d "E" then
        match scan_exponent r with
        | Some (e, r') => (Some e, r')
        | None => (None, s)
        end
      else (None, s)
  | EmptyString => (None, s)
  end.

(** [NUMBER_RE] at the head of [s], and the value [scan_once] makes of
    the match: [float] of the text when it has a fraction or an
    exponent, [int] of it otherwise. [None]: no match. *)
Definition scan_number (s : string) : option (result pyval * string) :=
  let '(neg, r0) := scan_sign s in
  match scan_int r0 with
  | None => None
  | Some (ip, ni, r1) =>
      let '(m, nf, r2) := scan_frac ip r1 in
      let '(ex, r3) := scan_exp r2 in
      match nf, ex with
      | O, None =>
          Some (if (int_max_str_digits <? ni)%nat then Raise ValueError
                else Ok (PyInt (if neg then - ip else ip)%Z), r3)
      | _, _ =>
          Some (Ok (PyFloat (PyFloat.of_decimal neg m
                               (default 0%Z ex - Z.of_nat nf))), r3)
      end
  end.

(** [scan_once], [JSONObject] and [JSONArray] of [json.decoder]. Each
    nested call takes one unit of [fuel]; [loads] gives more than a text
    of its length can use. *)
Fixpoint scan_once (fuel : nat) (s : string) : result (pyval * string) :=
  match fuel with
  | O => Raise RecursionError
  | S f =>
      match s with
      | EmptyString => Raise JSONDecodeError
      | String c r =>
          if Ascii.eqb c dquote then
            match scanstring r with
            | Ok (t, rest) => Ok (PyStr t, rest)
            | Raise e => Raise e
            end
          else if Ascii.eqb c "{" then
            match skip_ws r with
            | String d r' =>
                if Ascii.eqb d "}" then Ok (PyDict [], r')
                else if Ascii.eqb d dquote then object_members f r' []
                else Raise JSONDecodeError
            | EmptyString => Raise JSONDecodeError
            end
          else if Ascii.eqb c "[" then
            match skip_ws r with
            | String d r' =>
                if Ascii.eqb d "]" then Ok (PyList [], r')
                else array_elements f (skip_ws r) []
            | EmptyString => Raise JSONDecodeError
            end
          else if PyStr.startswith s "null" then Ok (PyNone, PyStr.drop 4 s)
          else if PyStr.startswith s "true" then
            Ok (PyBool true, PyStr.drop 4 s)
          else if PyStr.startswith s "false" then
            Ok (PyBool false, PyStr.drop 5 s)
          else
            match scan_number s with
            | Some (Ok v, rest) => Ok (v, rest)
            | Some (Raise e, _) => Raise e
            | None =>
                if PyStr.startswith s "NaN" then
                  Ok (PyFloat nan, PyStr.drop 3 s)
                else if PyStr.startswith s "Infinity" then
                  Ok (PyFloat infinity, PyStr.drop 8 s)
                else if PyStr.startswith s "-Infinity" then
                  Ok (PyFloat neg_infinity, PyStr.drop 9 s)
                else Raise JSONDecodeError
            end
      end
  end
(** The members of an object; [s] follows the opening quote of a key. *)
with object_members (fuel : nat) (s : string)
    (pairs : list (string * pyval)) : result (pyval * string) :=
  match fuel with
  | O => Raise RecursionError
  | S f =>
      match scanstring s with
      | Raise e => Raise e
      | Ok (key, r1) =>
          match skip_ws r1 with
          | String c r2 =>
              if Ascii.eqb c ":" then
                match scan_once f (skip_ws r2) with
                | Raise e => Raise e
                | Ok (v, r3) =>
                    let pairs' := dict_set pairs key v in
                    match skip_ws r3 with
                    | String d r4 =>
                        if Ascii.eqb d "}" then Ok (PyDict pairs', r4)
                        else if Ascii.eqb d "," then
                          match skip_ws r4 with
                          | String q r5 =>
                              if Ascii.eqb q dquote
                              then object_members f r5 pairs'
                              else Raise JSONDecodeError
                          | EmptyString => Raise JSONDecodeError
                          end
                        else Raise JSONDecodeError
                    | EmptyString => Raise JSONDecodeError
                    end
                end
              else Raise JSONDecodeError
          | EmptyString => Raise JSONDecodeError
          end
      end
  end
(** The elements of an array; [s] is at the start of an element,
    [acc] holds the elements read, last first. *)
with array_elements (fuel : nat) (s : string) (acc : list pyval) :
    result (pyval * string) :=
  match fuel with
  | O => Raise RecursionError
  | S f =>
      match scan_once f s with
      | Raise e => Raise e
      | Ok (v, r1) =>
          match skip_ws r1 with
          | String d r2 =>
              if Ascii.eqb d "]" then Ok (PyList (rev (v :: acc)), r2)
              else if Ascii.eqb d "," then
                array_elements f (skip_ws r2) (v :: acc)
              else Raise JSONDecodeError
          | EmptyString => Raise JSONDecodeError
          end
      end
  end.

(** [json.loads(s)] for a [str]: one value between optional white
    space. It raises [JSONDecodeError], or the [ValueError] of an
    integer literal that is too long. *)
Definition loads (s : string) : result pyval :=
  match scan_once (2 * String.length s + 2) (skip_ws s) with
  | Raise e => Raise e
  | Ok (v, rest) =>
      match skip_ws rest with
      | EmptyString => Ok v
      | String _ _ => Raise JSONDecodeError
      end
  end.

End Json.

(** ** The validity ranges *)

(** [VALID_RANGES]. The source writes some bounds as [int]; Python compares
    an [int] with a [float] by value and each of these is a double, so
    they stand here as the equal [float]. *)
Definition VALID_RANGES : gmap string (float * float) :=
  list_to_map
    [ ("co2_ppm", (150, 10000));
      ("temperature_c", (-40, 85));
      ("humidity_percent", (0, 100));
      ("pressure_hpa", (300, 1200));
      ("voc_index", (0, 500));
      ("nox_index", (0, 500)) ]%float.

(** ** Coercion and the two payload shapes *)

(** [float(value)] on a decoded value. *)
Definition py_float (value : pyval) : result float :=
  match value with
  | PyFloat f => Ok f
  | PyInt z => PyFloat.of_int z
  | PyBool b => Ok (if b then 1 else 0)%float
  | PyStr s => PyFloat.of_str s
  | PyNone | PyList _ | PyDict _ => Raise TypeError
  end.

(** [try_float(value)]: [None] on [ValueError] and [TypeError]; any other
    exception of [float] goes through. *)
Definition try_float (value : pyval) : result (option float) :=
  try_except (f ← py_float value; mret (Some f))
    (fun e => is_ValueError e || is_TypeError e)
    (Ok None).

(** Truth value of a [str]. *)
Definition str_truthy (s : string) : bool := negb (String.eqb s "").

(** The [for key, value in data.items()] loop of [parse_json_payload]. *)
Fixpoint parse_items (items : list (string * pyval))
    (reading : gmap string float) : result (gmap string float) :=
  match items with
  | [] => Ok reading
  | (key, value) :: rest =>
      match canonicalize key with
      | Some canon =>
          if str_truthy canon then
            v ← try_float value;
            match v with
            | Some f => parse_items rest (<[canon := f]> reading)
            | None => parse_items rest reading
            end
          else parse_items rest reading
      | None => parse_items rest reading
      end
  end.

(** [parse_json_payload(payload)] *)
Definition parse_json_payload (payload : string) :
    result (gmap string float) :=
  data ← Json.loads payload;
  match data with
  | PyDict items => parse_items items ∅
  | _ => Ok ∅
  end.

(** The [for part in reversed(...)] loop of [parse_topic_value]. *)
Fixpoint scan_parts (parts : list string) (payload : string) :
    result (gmap string float) :=
  match parts with
  | [] => Ok ∅
  | part :: rest =>
      match canonicalize part with
      | Some canon =>
          if str_truthy canon then
            v ← try_float (PyStr payload);
            match v with
            | Some f => Ok {[ canon := f ]}
            | None => scan_parts rest payload
            end
          else scan_parts rest payload
      | None => scan_parts rest payload
      end
  end.

(** The relative path [parse_topic_value] works on. *)
Definition relative_topic (topic base_topic : string) : string :=
  if PyStr.startswith topic base_topic
  then PyStr.strip_slash (PyStr.drop (String.length base_topic) topic)
  else topic.

(** [parse_topic_value(topic, payload, base_topic)] *)
Definition parse_topic_value (topic payload base_topic : string) :
    result (gmap string float) :=
  scan_parts (rev (PyStr.split "/" (relative_topic topic base_topic))) payload.

(** ** The range validator *)

(** [bounds[0] <= value <= bounds[1]] *)
Definition within (bounds : float * float) (value : float) : bool :=
  (fst bounds <=? value)%float && (value <=? snd bounds)%float.

(** The loop of [validate_reading] over the items. *)
Fixpoint validate_items (items : list (string * float)) : bool :=
  match items with
  | [] => true
  | (key, value) :: rest =>
      match VALID_RANGES !! key with
      | Some bounds =>
          if negb (within bounds value) then false else validate_items rest
      | None => validate_items rest
      end
  end.

(** [validate_reading(reading)] *)
Definition validate_reading (reading : gmap string float) : bool :=
  validate_items (map_to_list reading).

(** An item passes when its metric has no range or its value is inside
    the range. *)
Definition item_in_range (key : string) (value : float) : Prop :=
  forall bounds, VALID_RANGES !! key = Some bounds ->
                 within bounds value = true.

(** ** The message handler *)

(** A message as [on_message] sees it: the topic, and the payload already
    decoded ([msg.payload.decode("utf-8", errors="replace")], which does
    not raise). *)
Record MQTTMessage : Type := {
  msg_topic : string;
  msg_payload : string
}.

(** The normalization step of [on_message]: the JSON object shape first,
    its [JSONDecodeError] and [ValueError] swallowed, then the
    single-value-per-topic shape when the first gave nothing. *)
Definition normalize (topic payload base_topic : string) :
    result (gmap string float) :=
  parsed ← try_except (parse_json_payload payload) is_ValueError (Ok ∅);
  if decide (parsed = ∅) then parse_topic_value topic payload base_topic
  else Ok parsed.

(** The variables of [read_airlab] that its closures share. Times are in
    milliseconds of [time.monotonic()]. *)
Record episode : Type := {
  reading : gmap string float;
  got_data : bool;
  first_msg_time : list Z
}.

(** [reading = {}; got_data = False; first_msg_time = []] *)
Definition episode_start : episode :=
  {| reading := ∅; got_data := false; first_msg_time := [] |}.

(** [on_message(client, userdata, msg)], called at time [now]. *)
Definition on_message (base_topic : string) (now : Z) (st : episode)
    (msg : MQTTMessage) : result episode :=
  let payload := PyStr.strip (msg_payload msg) in
  let topic := msg_topic msg in
  if PyStr.endswith topic "/config" then Ok st
  else
    parsed ← normalize topic payload base_topic;
    if decide (parsed = ∅) then Ok st
    else
      Ok {| reading := parsed ∪ reading st;
            got_data := true;
            first_msg_time :=
              match first_msg_time st with
              | [] => first_msg_time st ++ [now]
              | _ :: _ => first_msg_time st
              end |}.

(** ** The durable writer *)

(** One row of [airlab_readings]: the six metric columns, in the order of
    the [INSERT] statement, [NULL] for a metric the reading lacks. *)
Definition row_of (r : gmap string float) : list (option float) :=
  map (fun column => r !! column) canonical_metrics.

(** What the storage engine does to one attempt: [execute] raises, or
    [execute] succeeds and [commit] raises. *)
Inductive fault : Type :=
| ExecuteRaises (e : exn)
| CommitRaises (e : exn).

Definition fault_exn (f : fault) : exn :=
  match f with
  | ExecuteRaises e | CommitRaises e => e
  end.

(** What the writer does, as the connection sees it. *)
Inductive db_event : Type :=
| Execute (row : list (option float))
| Commit
| Failed (e : exn)
| Warning (text : string)
| DbSleep (seconds : float)
| Close.

(** The connection: the rows committed, the rows of the open transaction,
    the faults the engine holds for the coming attempts ([None]: the
    attempt goes through; past the end of the list every attempt goes
    through), and the journal of what was done. *)
Record conn : Type := {
  committed : list (list (option float));
  staged : list (list (option float));
  faults : list (option fault);
  journal : list db_event
}.

Definition record (ev : list db_event) (c : conn) : conn :=
  {| committed := committed c; staged := staged c;
     faults := faults c; journal := journal c ++ ev |}.

(** [conn.execute(INSERT ...); conn.commit()] under the next fault. *)
Definition attempt_write (c : conn) (r : gmap string float) :
    conn * result unit :=
  let row := row_of r in
  let rest := tail (faults c) in
  match head (faults c) with
  | Some (Some (ExecuteRaises e)) =>
      ({| committed := committed c; staged := staged c; faults := rest;
          journal := journal c ++ [Execute row; Failed e] |},
       Raise e)
  | Some (Some (CommitRaises e)) =>
      ({| committed := committed c; staged := staged c ++ [row];
          faults := rest;
          journal := journal c ++ [Execute row; Commit; Failed e] |},
       Raise e)
  | Some None | None =>
      ({| committed := committed c ++ staged c ++ [row]; staged := [];
          faults := rest;
          journal := journal c ++ [Execute row; Commit] |},
       Ok tt)
  end.

Definition max_retries : nat := 3.

(** [0.5 * (attempt + 1)] *)
Definition backoff (attempt : nat) : float :=
  (0.5 * PrimFloat.of_uint63 (Uint63.of_Z (Z.of_nat (attempt + 1))))%float.

(** [isinstance(exc, sqlite3.OperationalError) and
     "database is locked" in str(exc)] *)
Definition is_locked (e : exn) : bool :=
  match e with
  | OperationalError msg => PyStr.contains "database is locked" msg
  | _ => false
  end.

(** The [for attempt in range(max_retries)] loop of [insert_reading]. *)
Fixpoint insert_loop (attempts : list nat) (c : conn)
    (r : gmap string float) : conn * result unit :=
  match attempts with
  | [] => (c, Ok tt)
  | attempt :: rest =>
      match attempt_write c r with
      | (c1, Ok _) => (c1, Ok tt)
      | (c1, Raise (OperationalError msg)) =>
          if PyStr.contains "database is locked" msg
             && (attempt <? max_retries - 1)%nat
          then
            insert_loop rest
              (record [Warning "Database locked, retrying (%d/%d)";
                       DbSleep (backoff attempt)] c1) r
          else (c1, Raise (OperationalError msg))
      | (c1, Raise e) => (c1, Raise e)
      end
  end.

(** [insert_reading(conn, reading)] *)
Definition insert_reading (c : conn) (r : gmap string float) :
    conn * result unit :=
  insert_loop (seq 0 max_retries) c r.

(** ** The collection episode *)

(** What happens around one run of [read_airlab], as far as the code can
    tell: whether [client.connect] raises; the clock when polling starts;
    the messages the network thread hands to [on_message], each with the
    clock at that moment; and the call of [time.sleep] in the polling
    loop, counted from 0, that a [SIGINT] interrupts, if one does.
    [time.sleep(0.5)] takes 500 ms and nothing else takes time. *)
Record world : Type := {
  connect_error : option exn;
  clock0 : Z;
  inbox : list (Z * MQTTMessage);
  sigint_at : option nat
}.

(** What [read_airlab] does to the client, and what it logs. *)
Inductive bus_event : Type :=
| Connect
| LoopStart
| Sleep
| LoopStop
| Disconnect
| Error (text : string).

(** The network thread between [loop_start] and [loop_stop]: the shared
    variables, whether the thread still runs (an exception that leaves
    [on_message] ends it), and the messages not yet delivered. *)
Record net : Type := {
  shared : episode;
  alive : bool;
  pending : list (Z * MQTTMessage)
}.

(** The thread handles one message at its time of delivery. *)
Definition handle (base_topic : string) (n : net) (m : Z * MQTTMessage) :
    net :=
  if alive n then
    match on_message base_topic m.1 (shared n) m.2 with
    | Ok st => {| shared := st; alive := true; pending := pending n |}
    | Raise _ =>
        {| shared := shared n; alive := false; pending := pending n |}
    end
  else n.

(** The thread runs until the clock shows [upto]: the messages due are
    handled in order, the others stay pending. *)
Definition deliver (base_topic : string) (upto : Z) (n : net) : net :=
  let due := filter (fun m => (m.1 <=? upto)%Z = true) (pending n) in
  let later := filter (fun m => (m.1 <=? upto)%Z = false) (pending n) in
  foldl (handle base_topic)
    {| shared := shared n; alive := alive n; pending := later |} due.

(** How the polling loop ends: the collection window after the first
    message has passed ([break]), the deadline has passed (the [while]
    condition fails), [time.sleep] was interrupted, or the recursion
    below ran out of [fuel] (it does not, see [poll_fuel_enough]). *)
Inductive loop_exit : Type :=
| Completed
| TimedOut
| Interrupted
| OutOfFuel.

Record poll_state : Type := {
  now : Z;
  thread : net;
  sleeps : nat
}.

(** [collect_window = 3], in milliseconds. *)
Definition collect_window : Z := 3000.

(** [time.sleep(0.5)], in milliseconds. *)
Definition poll_interval : Z := 500.

(** The [while time.monotonic() < deadline] loop. *)
Fixpoint poll (fuel : nat) (base_topic : string) (deadline : Z)
    (sigint : option nat) (s : poll_state) : poll_state * loop_exit :=
  match fuel with
  | O => (s, OutOfFuel)
  | S fuel' =>
      if (now s <? deadline)%Z then
        if decide (sigint = Some (sleeps s)) then (s, Interrupted)
        else
          let t := (now s + poll_interval)%Z in
          let s' := {| now := t;
                       thread := deliver base_topic t (thread s);
                       sleeps := S (sleeps s) |} in
          match first_msg_time (shared (thread s')) with
          | first :: _ =>
              let elapsed_since_first := (t - first)%Z in
              if (collect_window <=? elapsed_since_first)%Z
              then (s', Completed)
              else poll fuel' base_topic deadline sigint s'
          | [] => poll fuel' base_topic deadline sigint s'
          end
      else (s, TimedOut)
  end.

(** One run of [read_airlab]: what it returns or raises, what it did to
    the client, how the loop ended, the clock and the shared variables
    at the end. *)
Record run : Type := {
  returned : result (option (gmap string float));
  trace : list bus_event;
  ended : option loop_exit;
  stopped : Z;
  final : episode
}.

(** [read_airlab(cfg, timeout)], with [cfg["base_topic"]] as
    [base_topic] and [timeout] in seconds. *)
Definition read_airlab (base_topic : string) (timeout : Z) (w : world) :
    run :=
  match connect_error w with
  | Some _ =>
      {| returned := Ok None;
         trace := [Connect; Error "Could not connect to MQTT broker: %s"];
         ended := None; stopped := clock0 w; final := episode_start |}
  | None =>
      let deadline := (clock0 w + 1000 * timeout)%Z in
      let start :=
        {| now := clock0 w;
           thread := {| shared := episode_start; alive := true;
                        pending := inbox w |};
           sleeps := 0 |} in
      let '(s, how) :=
        poll (S (Z.to_nat (2 * timeout))) base_topic deadline
          (sigint_at w) start in
      let st := shared (thread s) in
      let slept := repeat Sleep (sleeps s) in
      match how with
      | Interrupted =>
          {| returned := Raise KeyboardInterrupt;
             trace := [Connect; LoopStart] ++ slept ++ [Sleep];
             ended := Some how; stopped := now s; final := st |}
      | _ =>
          let tr := [Connect; LoopStart] ++ slept ++ [LoopStop; Disconnect] in
          if negb (got_data st) then
            {| returned := Ok None;
               trace := tr ++ [Error "No data received within %ds"];
               ended := Some how; stopped := now s; final := st |}
          else
            {| returned := Ok (Some (reading st)); trace := tr;
               ended := Some how; stopped := now s; final := st |}
      end
  end.

(** ** Single-shot mode *)

(** How a Python process ends. *)
Inductive ending : Type :=
| Returned
| SysExit (code : Z)
| Uncaught (e : exn).

(** The exit status of the process: 0 when [main] returns, the argument
    of [sys.exit], 130 for an uncaught [KeyboardInterrupt] and 1 for any
    other uncaught exception. *)
Definition exit_code (e : ending) : Z :=
  match e with
  | Returned => 0
  | SysExit code => code
  | Uncaught KeyboardInterrupt => 130
  | Uncaught _ => 1
  end.

(** What [single_reading] logs. *)
Inductive log_line : Type :=
| LogError (text : string)
| LogWarning (text : string)
| LogInfo (text : string).

(** One run of [single_reading]: how it ends, the connection after
    [conn.close()], its log, and the run of [read_airlab] inside. *)
Record process : Type := {
  ending_of : ending;
  db : conn;
  log : list log_line;
  episode_run : run
}.

(** The default of [read_airlab]'s [timeout]. *)
Definition default_timeout : Z := 30.

(** [single_reading(cfg)], followed by the return of [main]. [c] is the
    connection [init_db] returns. *)
Definition single_reading (base_topic : string) (w : world) (c : conn) :
    process :=
  let r := read_airlab base_topic default_timeout w in
  let finish (e : ending) (c' : conn) (l : list log_line) :=
    {| ending_of := e; db := record [Close] c'; log := l;
       episode_run := r |} in
  match returned r with
  | Raise e => finish (Uncaught e) c []
  | Ok None => finish (SysExit 1) c [LogError "Failed to read from AirLab"]
  | Ok (Some rd) =>
      if decide (rd = ∅) then
        finish (SysExit 1) c [LogError "Empty reading from AirLab"]
      else if validate_reading rd then
        match insert_reading c rd with
        | (c', Ok _) => finish Returned c' [LogInfo "Saved: %s"]
        | (c', Raise e) => finish (Uncaught e) c' []
        end
      else
        finish Returned c [LogWarning "Reading failed validation, not saved"]
  end.

(** ** Reading the writer's journal *)

(** The number of attempts in a journal: one [Execute] each. *)
Definition is_execute (ev : db_event) : bool :=
  match ev with
  | Execute _ => true
  | _ => false
  end.

Definition attempts (j : list db_event) : nat :=
  length (List.filter is_execute j).

(** The sleeps of a journal, in order. *)
Definition sleeps_of (j : list db_event) : list float :=
  omap (fun ev => match ev with DbSleep d => Some d | _ => None end) j.

(** What the engine holds for attempt number [i], counted from 0. *)
Definition fault_at (c : conn) (i : nat) : option fault :=
  nth i (faults c) None.

(** The attempt meets a lock: an [OperationalError] whose text contains
    "database is locked". *)
Definition meets_lock (f : option fault) : bool :=
  match f with
  | Some f => is_locked (fault_exn f)
  | None => false
  end.

(** How an attempt under [f] ends. *)
Definition outcome (f : option fault) : result unit :=
  match f with
  | Some f => Raise (fault_exn f)
  | None => Ok tt
  end.

(** ** The two shapes, as the specification words them *)

(** A value coerces to a float when [float] returns one. *)
Definition coerce (value : pyval) : option float :=
  match py_float value with
  | Ok f => Some f
  | Raise _ => None
  end.

(** The entries of a decoded object that the specification keeps: the key
    canonicalizes to a metric and the value coerces to a float. *)
Definition kept_entries (items : list (string * pyval)) :
    list (string * float) :=
  omap (fun kv => canon ← canonicalize kv.1; f ← coerce kv.2; Some (canon, f))
       items.

(** [rest] when [s] is [prefix] followed by [rest]. *)
Fixpoint strip_prefix (prefix s : string) : option string :=
  match prefix, s with
  | EmptyString, _ => Some s
  | String a p', String b s' =>
      if Ascii.eqb a b then strip_prefix p' s' else None
  | String _ _, EmptyString => None
  end.

(** The metric of the rightmost segment that canonicalizes. *)
Fixpoint rightmost_metric (segments : list string) : option string :=
  match segments with
  | [] => None
  | s :: rest =>
      match rightmost_metric rest with
      | Some m => Some m
      | None => canonicalize s
      end
  end.

(** The first segment, in list order, that canonicalizes. *)
Fixpoint first_metric (segments : list string) : option string :=
  match segments with
  | [] => None
  | s :: rest =>
      match canonicalize s with
      | Some m => Some m
      | None => first_metric rest
      end
  end.

(** The scalar-per-channel shape in the words of the specification: strip
    the base prefix if present, split the rest at the delimiter, take the
    rightmost segment that is a metric, coerce the whole payload; one
    entry when both succeed, none otherwise. *)
Definition scalar_shape (topic payload base_topic : string) :
    gmap string float :=
  let relative := default topic (strip_prefix base_topic topic) in
  match rightmost_metric (PyStr.split "/" relative),
        coerce (PyStr payload) with
  | Some m, Some f => {[ m := f ]}
  | _, _ => ∅
  end.

(** The string of [k] slashes. *)
Definition slashes (k : nat) : string :=
  string_of_list_ascii (repeat "/"%char k).

(** [reading[canon] = v], entry after entry. *)
Definition store (acc : gmap string float) (kv : string * float) :
    gmap string float :=
  <[kv.1 := kv.2]> acc.

(** The value of the last entry of [l] for the metric [m], if any. *)
Fixpoint last_value (m : string) (l : list (string * float)) : option float :=
  match l with
  | [] => None
  | (k, f) :: rest =>
      match last_value m rest with
      | Some g => Some g
      | None => if String.eqb k m then Some f else None
      end
  end.

(** An item whose key is a metric and whose value is an [int] that
    [float] refuses with [OverflowError]. *)
Definition overflows (kv : string * pyval) : bool :=
  match canonicalize kv.1, py_float kv.2 with
  | Some _, Raise OverflowError => true
  | _, _ => false
  end.

(** The object shape as first worded: the reading holds exactly the kept
    entries. *)
Definition holds_exactly_kept_entries (payload : string) : Prop :=
  forall items, Json.loads payload = Ok (PyDict items) ->
    exists rd, parse_json_payload payload = Ok rd
      /\ forall m f, rd !! m = Some f <-> (m, f) ∈ kept_entries items.

(** The JSON text of an object whose [co2] is the integer 10^309, beyond
    the largest double. *)
Definition huge_int_payload : string :=
  Json.text
    (String.append "{'co2': 1"
       (String.append (string_of_list_ascii (repeat "0"%char 309)) "}")).

(** ** Notions of the specification about an episode *)

(** The flag agrees with the reading: "any message accepted" exactly when
    the accumulated reading is not empty. *)
Definition flag_matches (st : episode) : Prop :=
  got_data st = true <-> reading st <> ∅.

(** A message is accepted when it is no discovery message and its
    normalized reading is not empty. *)
Definition accepted (base_topic : string) (m : MQTTMessage) : bool :=
  negb (PyStr.endswith (msg_topic m) "/config")
  && match normalize (msg_topic m) (PyStr.strip (msg_payload m)) base_topic with
     | Ok parsed => bool_decide (parsed <> ∅)
     | Raise _ => false
     end.

(** The number of [Disconnect] in a trace. *)
Definition disconnects (tr : list bus_event) : nat :=
  length (List.filter
            (fun ev => match ev with Disconnect => true | _ => false end) tr).

(** A fresh connection to an empty table, with no fault ahead. *)
Definition fresh_conn : conn :=
  {| committed := []; staged := []; faults := []; journal := [] |}.

(** C1 as first worded, for one run: a reading that fails validation makes
    the process exit non-zero, and the process exits zero only after a
    successful write. *)
Definition rejects_with_failure_status (base_topic : string) (w : world)
    (c : conn) : Prop :=
  let p := single_reading base_topic w c in
  (forall rd, returned (episode_run p) = Ok (Some rd) ->
              validate_reading rd = false ->
              exit_code (ending_of p) <> 0%Z)
  /\ (exit_code (ending_of p) = 0%Z ->
      exists rd, returned (episode_run p) = Ok (Some rd)
                 /\ (insert_reading c rd).2 = Ok tt).

(** The worlds of the examples: the broker is reached, the clock starts
    at 0 and no signal arrives. *)
Definition quiet_world (msgs : list (Z * MQTTMessage)) : world :=
  {| connect_error := None; clock0 := 0; inbox := msgs; sigint_at := None |}.

(** A [SIGINT] during the first sleep of the polling loop. *)
Definition interrupted_world : world :=
  {| connect_error := None; clock0 := 0; inbox := []; sigint_at := Some 0 |}.

(** The shared variables are consistent: the flag agrees with the reading
    and the time of the first message is set exactly when the flag is. *)
Definition consistent (st : episode) : Prop :=
  flag_matches st /\ (first_msg_time st <> [] <-> got_data st = true).

(** ** What a decoding may be *)

(** The rest after a decoded value is shorter than the text it was
    decoded from. *)
Definition shorter (r : result (pyval * string)) (s : string) : Prop :=
  match r with
  | Ok (_, rest) => String.length rest < String.length s
  | Raise _ => True
  end.

(** A decoding that raises nothing but [JSONDecodeError] or [ValueError]:
    in particular, the fuel did not run out. *)
Definition in_fuel (r : result (pyval * string)) : Prop :=
  match r with
  | Ok _ => True
  | Raise e => is_ValueError e = true
  end.

(** ** The configuration and the entry point *)

(** [int(s)] for a [str], base 10: surrounding white space, an optional
    sign, digits with single underscores between them; [ValueError]
    otherwise, and for more digits than [int_max_str_digits]. *)
Definition py_int (s : string) : result Z :=
  let t := PyStr.strip s in
  let '(neg, r) :=
    match t with
    | String c r =>
        if Ascii.eqb c "-" then (true, r)
        else if Ascii.eqb c "+" then (false, r) else (false, t)
    | EmptyString => (false, t)
    end in
  match PyFloat.remove_underscores "000" r with
  | None => Raise ValueError
  | Some u =>
      match PyFloat.digits 0 0 u with
      | (v, S n, EmptyString) =>
          if (Json.int_max_str_digits <? S n)%nat then Raise ValueError
          else Ok (if neg then - v else v)%Z
      | _ => Raise ValueError
      end
  end.

(** The dictionary [load_config] returns. *)
Record config : Type := {
  host : string;
  port : Z;
  username : string;
  password : string;
  base_topic_of : string;
  db_path : string
}.

(** [os.getenv(key, default)] *)
Definition getenv (env : gmap string string) (key fallback : string) :
    string :=
  default fallback (env !! key).

(** [load_dotenv(path)]: the variables of the file are added to the
    environment, those already set keep their value. [dotenv] is the
    content of the file, as the library reads it. *)
Definition load_dotenv (environ dotenv : gmap string string) :
    gmap string string :=
  environ ∪ dotenv.

(** [load_config()]. [airlab_db] is [str(script_dir / "airlab.db")]. *)
Definition load_config (environ dotenv : gmap string string)
    (airlab_db : string) : result config :=
  let env := load_dotenv environ dotenv in
  p ← py_int (getenv env "MQTT_PORT" "1883");
  Ok {| host := PyStr.strip (getenv env "MQTT_HOST" "localhost");
        port := p;
        username := PyStr.strip (getenv env "MQTT_USERNAME" "");
        password := PyStr.strip (getenv env "MQTT_PASSWORD" "");
        base_topic_of := PyStr.strip (getenv env "MQTT_BASE_TOPIC" "airlab");
        db_path := PyStr.strip (getenv env "DB_PATH" airlab_db) |}.

(** What [argparse] makes of the command line. *)
Record args : Type := {
  single : bool;
  timeout_arg : Z
}.

(** One run of [main]: how the process ends and, when the configuration
    was loaded, the run of [single_reading]. *)
Record main_run : Type := {
  main_ending : ending;
  main_process : option process
}.

(** [main()], with the command line already parsed. [connect] gives the
    world met when connecting with a configuration, [init_db] the
    connection to the database at a path. *)
Definition main (environ dotenv : gmap string string) (airlab_db : string)
    (a : args) (connect : config -> world) (init_db : string -> conn) :
    main_run :=
  match load_config environ dotenv airlab_db with
  | Raise e => {| main_ending := Uncaught e; main_process := None |}
  | Ok cfg =>
      let p :=
        if single a
        then single_reading (base_topic_of cfg) (connect cfg)
               (init_db (db_path cfg))
        else single_reading (base_topic_of cfg) (connect cfg)
               (init_db (db_path cfg)) in
      {| main_ending := ending_of p; main_process := Some p |}
  end.

(** ** Further notions for the properties of the code *)

(** The six metric names, as a set. *)
Definition metrics : gset string := list_to_set canonical_metrics.

(** The reading a row of the table stands for. *)
Definition reading_of_row (row : list (option float)) : gmap string float :=
  list_to_map
    (omap (fun kv : string * option float => v ← kv.2; Some (kv.1, v))
          (zip canonical_metrics row)).

(** The string [s] between white space [l] and [r]. *)
Definition padded (l s r : string) : string :=
  String.append l (String.append s r).

(** A string of white space only. *)
Fixpoint blank (s : string) : bool :=
  match s with
  | EmptyString => true
  | String c s' => PyStr.isspace c && blank s'
  end.

(** The number of [Close] in a journal. *)
Definition closes (j : list db_event) : nat :=
  length (List.filter (fun ev => match ev with Close => true | _ => false end) j).

(** No fault the engine holds strikes at [commit]. *)
Definition faults_at_execute (fs : list (option fault)) : bool :=
  forallb (fun f => match f with
                    | Some (CommitRaises _) => false
                    | _ => true
                    end) fs.

(** What the network thread holds comes from the messages of the world:
    the pending messages are among them, every key of the reading is a
    metric, and every entry of the reading was carried by a message that
    was accepted and delivered by the deadline. *)
Definition from_inbox (base_topic : string) (timeout : Z) (w : world)
    (n : net) : Prop :=
  (forall m, m ∈ pending n -> m ∈ inbox w)
  /\ dom (reading (shared n)) ⊆ metrics
  /\ forall k v,
       reading (shared n) !! k = Some v ->
       exists (m : Z * MQTTMessage) (parsed : gmap string float),
         m ∈ inbox w
         /\ (m.1 <= clock0 w + 1000 * timeout)%Z
         /\ accepted base_topic m.2 = true
         /\ normalize (msg_topic m.2) (PyStr.strip (msg_payload m.2)) base_topic
            = Ok parsed
         /\ parsed !! k = Some v.

(** * Properties *)

(** ** Properties of the string methods *)

Module PyStrFacts.
Import PyStr.

Lemma lower_char_idem c : lower_char (lower_char c) = lower_char c.
Proof. destruct c as [[] [] [] [] [] [] [] []]; reflexivity. Qed.

Lemma isspace_lower_char c : isspace (lower_char c) = isspace c.
Proof. destruct c as [[] [] [] [] [] [] [] []]; reflexivity. Qed.

Lemma lower_idem s : lower (lower s) = lower s.
Proof. induction s as [|c s IH]; simpl; [|rewrite lower_char_idem, IH]; reflexivity. Qed.

Lemma lstrip_lower s : lstrip_by isspace (lower s) = lower (lstrip_by isspace s).
Proof.
  induction s as [|c s IH]; simpl; [reflexivity|].
  rewrite isspace_lower_char. destruct (isspace c); [exact IH|reflexivity].
Qed.

Lemma rstrip_lower s : rstrip_by isspace (lower s) = lower (rstrip_by isspace s).
Proof.
  induction s as [|c s IH]; simpl; [reflexivity|].
  rewrite IH, isspace_lower_char.
  destruct (rstrip_by isspace s); simpl; [destruct (isspace c)|]; reflexivity.
Qed.

(** Lower-casing and trimming commute. *)
Lemma strip_lower s : strip (lower s) = lower (strip s).
Proof. unfold strip, strip_by. rewrite lstrip_lower. apply rstrip_lower. Qed.

(** What [rstrip_by] returns is empty or ends in a kept character, so a
    second pass changes nothing. *)
Lemma rstrip_idem p s : rstrip_by p (rstrip_by p s) = rstrip_by p s.
Proof.
  induction s as [|c s IH]; simpl; [reflexivity|].
  destruct (rstrip_by p s) as [|d r] eqn:E.
  - destruct (p c) eqn:Ec; simpl; [reflexivity|]. rewrite Ec. reflexivity.
  - simpl in *. rewrite IH. reflexivity.
Qed.

(** What [lstrip_by] returns is empty or starts with a kept character. *)
Lemma lstrip_head p s :
  match lstrip_by p s with
  | EmptyString => True
  | String c _ => p c = false
  end.
Proof.
  induction s as [|c s IH]; simpl; [exact I|].
  destruct (p c) eqn:E; [exact IH|exact E].
Qed.

(** Trimming on the right keeps a kept first character in place. *)
Lemma rstrip_head p c s :
  p c = false -> exists r, rstrip_by p (String c s) = String c r.
Proof.
  intros Hc. simpl. destruct (rstrip_by p s).
  - rewrite Hc. eauto.
  - eauto.
Qed.

Lemma lstrip_fixed p s :
  match s with EmptyString => True | String c _ => p c = false end ->
  lstrip_by p s = s.
Proof. destruct s as [|c s]; simpl; [reflexivity|]. intros ->. reflexivity. Qed.

Lemma strip_by_idem p s : strip_by p (strip_by p s) = strip_by p s.
Proof.
  unfold strip_by.
  pose proof (lstrip_head p s) as H.
  destruct (lstrip_by p s) as [|c t] eqn:E; [reflexivity|].
  destruct (rstrip_head p c t H) as [r Hr].
  rewrite Hr, lstrip_fixed by exact H.
  rewrite <- Hr. apply rstrip_idem.
Qed.

Lemma strip_idem s : strip (strip s) = strip s.
Proof. apply strip_by_idem. Qed.

(** [field.lower().strip()] is a normal form. *)
Lemma normalize_idem s :
  strip (lower (strip (lower s))) = strip (lower s).
Proof. rewrite (strip_lower (strip (lower s))), strip_idem, <- strip_lower, lower_idem. reflexivity. Qed.

End PyStrFacts.

(** ** C6: canonicalization *)

(** A few runs of [canonicalize]. *)
Example canonicalize_co2_upper : canonicalize "  CO2 " = Some "co2_ppm".
Proof. reflexivity. Qed.

Example canonicalize_unknown : canonicalize "unknown_field" = None.
Proof. reflexivity. Qed.

Example canonicalize_empty : canonicalize "" = None.
Proof. reflexivity. Qed.

(** Whatever [canonicalize] returns is a canonical metric name. *)
Lemma canonicalize_range s m :
  canonicalize s = Some m -> In m canonical_metrics.
Proof.
  unfold canonicalize. intros H.
  apply elem_of_list_to_map_2 in H.
  repeat (apply elem_of_cons in H as [H|H];
          [injection H as _ ->; simpl; auto 10|]).
  inversion H.
Qed.

(** C6. For every string [s], [canonicalize s] is [canonicalize] of [s]
    lower-cased and trimmed (in either order of the two steps), and every
    canonical metric name canonicalizes to itself. *)
Theorem canonicalize_case_space_insensitive_and_idempotent :
  (forall s : string,
      canonicalize (PyStr.strip (PyStr.lower s)) = canonicalize s
      /\ canonicalize (PyStr.lower (PyStr.strip s)) = canonicalize s)
  /\ Forall (fun m : string => canonicalize m = Some m) canonical_metrics.
Proof.
  split.
  - intros s. unfold canonicalize. split.
    + rewrite PyStrFacts.normalize_idem. reflexivity.
    + rewrite <- PyStrFacts.strip_lower, PyStrFacts.normalize_idem. reflexivity.
  - repeat constructor.
Qed.

(** ** Runs of the library models *)

Example float_800 : PyFloat.of_str "800" = Ok 800%float.
Proof. reflexivity. Qed.

Example float_21_5 : PyFloat.of_str " 21.5 " = Ok 21.5%float.
Proof. reflexivity. Qed.

Example float_tenth : PyFloat.of_str "1e-1" = Ok 0x1.999999999999ap-4%float.
Proof. reflexivity. Qed.

Example float_underscore : PyFloat.of_str "1_000.5" = Ok 1000.5%float.
Proof. reflexivity. Qed.

Example float_huge : PyFloat.of_str "1e400" = Ok infinity.
Proof. reflexivity. Qed.

Example float_nan : PyFloat.of_str "NaN" = Ok nan.
Proof. reflexivity. Qed.

Example float_bad : PyFloat.of_str "not-json{{{" = Raise ValueError.
Proof. reflexivity. Qed.

Example float_of_int_800 : PyFloat.of_int 800 = Ok 800%float.
Proof. reflexivity. Qed.

Example float_of_int_overflow : PyFloat.of_int (10 ^ 309) = Raise OverflowError.
Proof. vm_compute. reflexivity. Qed.

Example loads_object :
  Json.loads (Json.text "{'co2': 800, 'temp': 21.5, 'unknown_field': 'x'}")
  = Ok (PyDict [("co2", PyInt 800); ("temp", PyFloat 21.5);
                ("unknown_field", PyStr "x")]).
Proof. reflexivity. Qed.

Example loads_scalar : Json.loads "800" = Ok (PyInt 800).
Proof. reflexivity. Qed.

Example loads_nested :
  Json.loads (Json.text " {'a': [1, {'b': null}, true], 'a': -2.5e1} ")
  = Ok (PyDict [("a", PyFloat (-25))]).
Proof. reflexivity. Qed.

Example loads_malformed : Json.loads "not-json{{{" = Raise JSONDecodeError.
Proof. reflexivity. Qed.

Example loads_extra_data : Json.loads "1 2" = Raise JSONDecodeError.
Proof. reflexivity. Qed.

Example loads_trailing_comma :
  Json.loads (Json.text "{'a': 1,}") = Raise JSONDecodeError.
Proof. reflexivity. Qed.

Example loads_leading_zero : Json.loads "01" = Raise JSONDecodeError.
Proof. reflexivity. Qed.

Example loads_nan : Json.loads "NaN" = Ok (PyFloat nan).
Proof. reflexivity. Qed.

Example loads_duplicate_key :
  Json.loads (Json.text "{'a': 1, 'b': 2, 'a': 3}")
  = Ok (PyDict [("a", PyInt 3); ("b", PyInt 2)]).
Proof. reflexivity. Qed.

Example float_smallest : PyFloat.of_str "5e-324" = Ok 0x0.0000000000001p-1022%float.
Proof. vm_compute. reflexivity. Qed.

Example float_largest :
  PyFloat.of_str "1.7976931348623157e308" = Ok 0x1.fffffffffffffp1023%float.
Proof. vm_compute. reflexivity. Qed.

Example float_of_int_ties_to_even :
  PyFloat.of_int 9007199254740993 = Ok 9007199254740992%float.
Proof. vm_compute. reflexivity. Qed.

Example parse_json_example :
  parse_json_payload
    (Json.text "{'co2': 800, 'temp': 21.5, 'unknown_field': 'x'}")
  = Ok (<["co2_ppm" := 800%float]> (<["temperature_c" := 21.5%float]> ∅)).
Proof. vm_compute. reflexivity. Qed.

Example parse_topic_example :
  parse_topic_value "airlab/sensor1/co2" "800" "airlab"
  = Ok {[ "co2_ppm" := 800%float ]}.
Proof. vm_compute. reflexivity. Qed.

Example validate_hot :
  validate_reading {[ "temperature_c" := 150%float ]} = false.
Proof. vm_compute. reflexivity. Qed.

(** ** C2: the range validator *)

Section Validator.

Lemma validate_items_Forall (items : list (string * float)) :
  validate_items items = true
  <-> Forall (fun kv => item_in_range kv.1 kv.2) items.
Proof.
  induction items as [|[key value] rest IH].
  - split; [constructor|reflexivity].
  - rewrite Forall_cons, <- IH. unfold item_in_range.
    cbn [validate_items fst snd].
    destruct (VALID_RANGES !! key) as [bounds|].
    + destruct (within bounds value) eqn:W; cbn [negb].
      * split; [intros H; split; [intros b Hb|exact H]|tauto].
        injection Hb as <-. exact W.
      * split; [discriminate|].
        intros [H _]. specialize (H bounds eq_refl). congruence.
    + split; [intros H; split; [discriminate|exact H]|tauto].
Qed.

End Validator.

(** Runs of the validator on the readings of the specification. *)
Example validate_hot_with_good_co2 :
  validate_reading
    (<["temperature_c" := 150%float]> {[ "co2_ppm" := 800%float ]}) = false.
Proof. vm_compute. reflexivity. Qed.

Example validate_good_co2_alone :
  validate_reading {[ "co2_ppm" := 800%float ]} = true.
Proof. vm_compute. reflexivity. Qed.

Example validate_bounds_inclusive :
  validate_reading
    (<["co2_ppm" := 150%float]> {[ "humidity_percent" := 100%float ]}) = true.
Proof. vm_compute. reflexivity. Qed.

Example validate_nan :
  validate_reading {[ "co2_ppm" := nan ]} = false.
Proof. vm_compute. reflexivity. Qed.

Example validate_unranged_metric :
  validate_reading {[ "battery" := 1e9%float ]} = true.
Proof. vm_compute. reflexivity. Qed.

(** C2. [validate_reading] passes a reading exactly when every metric
    present that has a validity range has its value within the inclusive
    bounds; metrics that are absent, or have no range, are not checked. *)
Theorem validate_reading_iff_all_present_in_range :
  forall reading : gmap string float,
    validate_reading reading = true
    <-> (forall key value bounds,
            reading !! key = Some value ->
            VALID_RANGES !! key = Some bounds ->
            (fst bounds <=? value)%float = true
            /\ (value <=? snd bounds)%float = true).
Proof.
  intros reading. unfold validate_reading.
  rewrite validate_items_Forall, Forall_forall.
  split.
  - intros H key value bounds Hk Hb.
    apply andb_true_iff.
    apply (H (key, value)); [|exact Hb].
    apply elem_of_map_to_list. exact Hk.
  - intros H [key value] Hin bounds Hb. simpl in *.
    apply elem_of_map_to_list in Hin.
    apply andb_true_iff. eapply H; eassumption.
Qed.

(** ** C7: the durable writer's retries *)

Section Writer.

Variable r : gmap string float.

(** One attempt: one [Execute], no sleep, the next fault consumed. *)
Lemma attempt_write_spec (c : conn) :
  exists j,
    journal (attempt_write c r).1 = journal c ++ j
    /\ attempts j = 1
    /\ sleeps_of j = []
    /\ (attempt_write c r).2 = outcome (fault_at c 0)
    /\ faults (attempt_write c r).1 = tail (faults c).
Proof.
  unfold attempt_write, fault_at.
  destruct (faults c) as [|[[e|e]|] rest]; simpl;
    eexists; (split; [reflexivity|]); repeat split.
Qed.

Lemma fault_at_tail (c c' : conn) (i : nat) :
  faults c' = tail (faults c) -> fault_at c' i = fault_at c (S i).
Proof.
  unfold fault_at. intros ->. destruct (faults c); [destruct i|]; reflexivity.
Qed.

Lemma attempts_app (j1 j2 : list db_event) :
  attempts (j1 ++ j2) = attempts j1 + attempts j2.
Proof. unfold attempts. rewrite List.filter_app, length_app. reflexivity. Qed.

Lemma sleeps_of_app (j1 j2 : list db_event) :
  sleeps_of (j1 ++ j2) = sleeps_of j1 ++ sleeps_of j2.
Proof. unfold sleeps_of. apply omap_app. Qed.

(** One turn of the loop. *)
Lemma insert_loop_step (a : nat) (rest : list nat) (c : conn) :
  insert_loop (a :: rest) c r =
  match (attempt_write c r).2 with
  | Ok _ => ((attempt_write c r).1, Ok tt)
  | Raise e =>
      if is_locked e && (a <? max_retries - 1)%nat
      then insert_loop rest
             (record [Warning "Database locked, retrying (%d/%d)";
                      DbSleep (backoff a)] (attempt_write c r).1) r
      else ((attempt_write c r).1, Raise e)
  end.
Proof.
  cbn [insert_loop]. destruct (attempt_write c r) as [c1 [[]|e]]; cbn [fst snd];
    [reflexivity|].
  destruct e; reflexivity.
Qed.

(** The loop over the attempts [a, a+1, ..., a+k] that end at
    [max_retries]: it makes [n] attempts, where attempt [n] is the first
    that does not meet a lock, or the last of the range. *)
Lemma insert_loop_spec (k : nat) :
  forall (a : nat) (c : conn),
    a + S k = max_retries ->
    exists n j,
      1 <= n <= S k
      /\ journal (insert_loop (seq a (S k)) c r).1 = journal c ++ j
      /\ attempts j = n
      /\ sleeps_of j = map backoff (seq a (n - 1))
      /\ (forall i, i < n - 1 -> meets_lock (fault_at c i) = true)
      /\ (insert_loop (seq a (S k)) c r).2 = outcome (fault_at c (n - 1))
      /\ (meets_lock (fault_at c (n - 1)) = true -> n = S k).
Proof.
  induction k as [|k IH]; intros a c Ha;
    change (seq a (S ?m)) with (a :: seq (S a) m);
    rewrite insert_loop_step;
    destruct (attempt_write_spec c) as (j & Hj & Hn & Hs & Ho & Hf);
    destruct (attempt_write c r) as [c1 res]; cbn [fst snd] in *; subst res;
    unfold meets_lock, outcome;
    destruct (fault_at c 0) as [f|] eqn:Hf0.
  - (* the last attempt fails: whatever the failure, it is final *)
    replace (a <? max_retries - 1)%nat with false
      by (symmetry; apply Nat.ltb_ge; unfold max_retries in *; lia).
    rewrite andb_false_r. exists 1, j. cbn [fst snd Nat.sub]. rewrite Hf0.
    repeat split; try lia; try assumption.
  - exists 1, j. cbn [fst snd Nat.sub]. rewrite Hf0.
    repeat split; try lia; try assumption; try discriminate.
  - replace (a <? max_retries - 1)%nat with true
      by (symmetry; apply Nat.ltb_lt; unfold max_retries in *; lia).
    rewrite andb_true_r.
    destruct (is_locked (fault_exn f)) eqn:Hl.
    + (* a lock: warn, sleep and go on *)
      set (c2 := record _ c1).
      destruct (IH (S a) c2 ltac:(lia))
        as (n & j2 & Hn2 & Hj2 & Ha2 & Hs2 & Hl2 & Ho2 & Hf2).
      assert (Hshift : forall i, fault_at c2 i = fault_at c (S i))
        by (intros i; apply fault_at_tail; exact Hf).
      exists (S n),
        (j ++ [Warning "Database locked, retrying (%d/%d)"; DbSleep (backoff a)]
           ++ j2).
      replace (S n - 1) with (S (n - 1)) by lia.
      repeat split; try lia.
      * rewrite Hj2. subst c2. unfold record. cbn [journal].
        rewrite Hj, <- !app_assoc. reflexivity.
      * rewrite !attempts_app, Hn, Ha2. reflexivity.
      * rewrite !sleeps_of_app, Hs, Hs2. reflexivity.
      * intros i Hi. destruct i as [|i].
        -- rewrite Hf0. exact Hl.
        -- rewrite <- Hshift. apply Hl2. lia.
      * rewrite Ho2, Hshift. reflexivity.
      * intros H. f_equal. apply Hf2. rewrite Hshift. exact H.
    + (* a failure that is no lock: final *)
      exists 1, j. cbn [fst snd Nat.sub]. rewrite Hf0.
      repeat split; try lia; try assumption; try congruence.
  - exists 1, j. cbn [fst snd Nat.sub]. rewrite Hf0.
    repeat split; try lia; try assumption; try discriminate.
Qed.

End Writer.

(** Runs of the writer of the specification: a lock on the first attempt
    only, and a lock on each of the three attempts. *)
Example insert_succeeds_on_second_attempt :
  let locked := Some (ExecuteRaises (OperationalError "database is locked")) in
  let c := {| committed := []; staged := []; faults := [locked];
              journal := [] |} in
  let rd : gmap string float := {[ "co2_ppm" := 800%float ]} in
  (insert_reading c rd).2 = Ok tt
  /\ committed (insert_reading c rd).1 = [row_of rd]
  /\ sleeps_of (journal (insert_reading c rd).1) = [0.5%float].
Proof. vm_compute. repeat split. Qed.

Example insert_fails_after_three_locks :
  let e := OperationalError "database is locked" in
  let c := {| committed := []; staged := [];
              faults := [Some (ExecuteRaises e); Some (ExecuteRaises e);
                         Some (ExecuteRaises e)];
              journal := [] |} in
  let rd : gmap string float := {[ "co2_ppm" := 800%float ]} in
  (insert_reading c rd).2 = Raise e
  /\ committed (insert_reading c rd).1 = []
  /\ sleeps_of (journal (insert_reading c rd).1) = [0.5; 1]%float.
Proof. vm_compute. repeat split. Qed.

(** C7. [insert_reading] makes between one and three attempts; every
    attempt but the last met a lock (an [OperationalError] whose text
    contains "database is locked"), and the sleeps between the attempts
    are 0.5 then 1.0; the call ends as its last attempt does, so a
    failure that is no lock is raised at once, with no retry, and a lock
    on the last attempt is raised only when that attempt is the third. *)
Theorem insert_reading_retries_on_lock_at_most_three_attempts :
  forall (c : conn) (rd : gmap string float),
  exists (n : nat) (j : list db_event),
    1 <= n <= 3
    /\ journal (insert_reading c rd).1 = journal c ++ j
    /\ attempts j = n
    /\ sleeps_of j = take (n - 1) [0.5; 1]%float
    /\ (forall i, i < n - 1 -> meets_lock (fault_at c i) = true)
    /\ (insert_reading c rd).2 = outcome (fault_at c (n - 1))
    /\ (meets_lock (fault_at c (n - 1)) = true -> n = 3).
Proof.
  intros c rd.
  destruct (insert_loop_spec rd 2 0 c eq_refl)
    as (n & j & Hn & Hj & Ha & Hs & Hl & Ho & Hf).
  exists n, j. repeat split; try lia; try assumption.
  rewrite Hs.
  destruct n as [|[|[|[|n]]]]; try lia; reflexivity.
Qed.

(** ** C5: the scalar-per-channel shape *)

Section ScalarShape.

Import PyStr.

Lemma startswith_strip_prefix (s p : string) :
  startswith s p = true ->
  strip_prefix p s = Some (drop (String.length p) s).
Proof.
  revert s. induction p as [|a p IH]; intros s H; [reflexivity|].
  destruct s as [|b s]; [discriminate|]. simpl in *.
  apply andb_true_iff in H as [-> H]. apply IH. exact H.
Qed.

Lemma startswith_false_strip_prefix (s p : string) :
  startswith s p = false -> strip_prefix p s = None.
Proof.
  revert s. induction p as [|a p IH]; intros s H;
    [destruct s; discriminate|].
  destruct s as [|b s]; [reflexivity|]. simpl in *.
  destruct (Ascii.eqb a b); [apply IH; exact H|reflexivity].
Qed.

(** The source's relative path is the stripped one, trimmed of slashes. *)
Lemma relative_topic_strip_prefix (topic base_topic : string) :
  relative_topic topic base_topic =
  match strip_prefix base_topic topic with
  | Some rest => strip_slash rest
  | None => topic
  end.
Proof.
  unfold relative_topic. destruct (startswith topic base_topic) eqn:E.
  - rewrite (startswith_strip_prefix _ _ E). reflexivity.
  - rewrite (startswith_false_strip_prefix _ _ E). reflexivity.
Qed.

Lemma split_nonempty (sep : ascii) (s : string) : split sep s <> [].
Proof.
  destruct s as [|c s]; simpl; [discriminate|].
  destruct (Ascii.eqb c sep); [discriminate|].
  destruct (split sep s); discriminate.
Qed.

(** An empty segment in front changes nothing. *)
Lemma rightmost_metric_empty_head (l : list string) :
  rightmost_metric (EmptyString :: l) = rightmost_metric l.
Proof. cbn [rightmost_metric]. destruct (rightmost_metric l); reflexivity. Qed.

Lemma rightmost_metric_lstrip (s : string) :
  rightmost_metric (split "/" (lstrip_by (Ascii.eqb "/") s))
  = rightmost_metric (split "/" s).
Proof.
  induction s as [|c s IH]; [reflexivity|].
  cbn [lstrip_by]. rewrite (Ascii.eqb_sym "/" c).
  cbn [split]. destruct (Ascii.eqb c "/") eqn:E; [|cbn [split]; rewrite E; reflexivity].
  rewrite rightmost_metric_empty_head. exact IH.
Qed.

Lemma rightmost_metric_app (l1 l2 : list string) :
  rightmost_metric (l1 ++ l2) =
  match rightmost_metric l2 with
  | Some m => Some m
  | None => rightmost_metric l1
  end.
Proof.
  induction l1 as [|s l1 IH]; cbn [app rightmost_metric].
  - destruct (rightmost_metric l2); reflexivity.
  - rewrite IH. destruct (rightmost_metric l2); reflexivity.
Qed.

Lemma rightmost_metric_empties (k : nat) :
  rightmost_metric (repeat EmptyString k) = None.
Proof.
  induction k as [|k IH]; [reflexivity|].
  cbn [repeat]. rewrite rightmost_metric_empty_head. exact IH.
Qed.

Lemma split_slashes (k : nat) :
  split "/" (slashes k) = repeat EmptyString (S k).
Proof.
  induction k as [|k IH]; [reflexivity|].
  change (slashes (S k)) with (String "/" (slashes k)).
  cbn [split]. rewrite Ascii.eqb_refl, IH. reflexivity.
Qed.

Lemma append_cons (c : ascii) (s t : string) :
  String.append (String c s) t = String c (String.append s t).
Proof. reflexivity. Qed.

Lemma append_empty (s : string) : String.append s EmptyString = s.
Proof.
  induction s as [|c s IH]; [reflexivity|].
  rewrite append_cons, IH. reflexivity.
Qed.

(** Splitting distributes over a slash. *)
Lemma split_app_slash (t u : string) :
  split "/" (String.append t (String "/" u)) = split "/" t ++ split "/" u.
Proof.
  induction t as [|c t IH]; [reflexivity|].
  rewrite append_cons. cbn [split]. rewrite IH.
  destruct (Ascii.eqb c "/"); [reflexivity|].
  destruct (split "/" t) as [|h l] eqn:E; [destruct (split_nonempty _ _ E)|].
  reflexivity.
Qed.

(** A string is its right-trimmed part followed by slashes. *)
Lemma rstrip_slashes (s : string) :
  exists k, s = String.append (rstrip_by (Ascii.eqb "/") s) (slashes k).
Proof.
  induction s as [|c s [k IH]]; [exists 0; reflexivity|].
  cbn [rstrip_by].
  destruct (rstrip_by (Ascii.eqb "/") s) as [|d t].
  - change (String.append EmptyString (slashes k)) with (slashes k) in IH.
    destruct (Ascii.eqb "/" c) eqn:E.
    + apply Ascii.eqb_eq in E as <-. exists (S k).
      rewrite IH at 1. reflexivity.
    + exists k. rewrite !append_cons. rewrite IH at 1. reflexivity.
  - exists k. rewrite append_cons. rewrite IH at 1. reflexivity.
Qed.

Lemma rightmost_metric_rstrip (s : string) :
  rightmost_metric (split "/" (rstrip_by (Ascii.eqb "/") s))
  = rightmost_metric (split "/" s).
Proof.
  destruct (rstrip_slashes s) as [k Hk].
  rewrite Hk at 2. destruct k as [|k].
  - change (slashes 0) with EmptyString.
    rewrite append_empty. reflexivity.
  - change (slashes (S k)) with (String "/" (slashes k)).
    rewrite split_app_slash, rightmost_metric_app, split_slashes,
      rightmost_metric_empties.
    reflexivity.
Qed.

(** Trimming the slashes of a path does not change its rightmost metric. *)
Lemma rightmost_metric_strip_slash (s : string) :
  rightmost_metric (split "/" (strip_slash s))
  = rightmost_metric (split "/" s).
Proof.
  unfold strip_slash, strip_by.
  rewrite rightmost_metric_rstrip. apply rightmost_metric_lstrip.
Qed.

Lemma first_metric_app (l1 l2 : list string) :
  first_metric (l1 ++ l2) =
  match first_metric l1 with
  | Some m => Some m
  | None => first_metric l2
  end.
Proof.
  induction l1 as [|s l1 IH]; cbn [app first_metric]; [reflexivity|].
  destruct (canonicalize s); [reflexivity|exact IH].
Qed.

(** Scanning the reversed list for the first metric finds the rightmost. *)
Lemma first_metric_rev (l : list string) :
  first_metric (rev l) = rightmost_metric l.
Proof.
  induction l as [|s l IH]; [reflexivity|].
  cbn [rev rightmost_metric]. rewrite first_metric_app, IH.
  cbn [first_metric].
  destruct (rightmost_metric l); [reflexivity|].
  destruct (canonicalize s); reflexivity.
Qed.

(** [float] of a [str] returns a float or raises [ValueError]. *)
Lemma of_str_cases (s : string) :
  (exists f, PyFloat.of_str s = Ok f) \/ PyFloat.of_str s = Raise ValueError.
Proof.
  unfold PyFloat.of_str.
  destruct (PyFloat.remove_underscores _ _) as [t|]; [|right; reflexivity].
  destruct (match t with
            | EmptyString => (false, t)
            | String c r =>
                if Ascii.eqb c "-" then (true, r)
                else if Ascii.eqb c "+" then (false, r) else (false, t)
            end) as [neg r].
  destruct (PyFloat.parse_unsigned neg r) as [f|]; [left; eauto|right; reflexivity].
Qed.

(** So [try_float] of a [str] never raises: it is the coercion. *)
Lemma try_float_str (s : string) :
  try_float (PyStr s) = Ok (coerce (PyStr s)).
Proof.
  unfold try_float, coerce, py_float.
  destruct (of_str_cases s) as [[f ->]| ->]; reflexivity.
Qed.

(** Canonical names are not the empty string. *)
Lemma canonical_truthy (s m : string) :
  canonicalize s = Some m -> str_truthy m = true.
Proof.
  intros H. apply canonicalize_range in H. simpl in H.
  repeat (destruct H as [<-|H]; [reflexivity|]). destruct H.
Qed.

(** The loop of [parse_topic_value]: the first part that is a metric, with
    the coerced payload. *)
Lemma scan_parts_spec (parts : list string) (payload : string) :
  scan_parts parts payload =
  Ok match first_metric parts, coerce (PyStr payload) with
     | Some m, Some f => {[ m := f ]}
     | _, _ => ∅
     end.
Proof.
  induction parts as [|part rest IH]; [reflexivity|].
  cbn [scan_parts first_metric].
  destruct (canonicalize part) as [m|] eqn:E; [|exact IH].
  rewrite (canonical_truthy _ _ E), try_float_str. cbn.
  destruct (coerce (PyStr payload)); [reflexivity|].
  rewrite IH. destruct (first_metric rest); reflexivity.
Qed.

(** The source's function computes the specification's shape. *)
Lemma parse_topic_value_scalar_shape (topic payload base_topic : string) :
  parse_topic_value topic payload base_topic =
  Ok (scalar_shape topic payload base_topic).
Proof.
  unfold parse_topic_value, scalar_shape.
  rewrite scan_parts_spec, first_metric_rev, relative_topic_strip_prefix.
  destruct (strip_prefix base_topic topic) as [rest|]; cbn [default];
    [rewrite rightmost_metric_strip_slash|]; reflexivity.
Qed.

End ScalarShape.

(** The examples of the specification. *)
Example scalar_shape_example :
  scalar_shape "airlab/sensor1/co2" "800" "airlab"
  = {[ "co2_ppm" := 800%float ]}.
Proof. vm_compute. reflexivity. Qed.

Example normalize_scalar_example :
  normalize "airlab/sensor1/co2" "800" "airlab"
  = Ok {[ "co2_ppm" := 800%float ]}.
Proof. vm_compute. reflexivity. Qed.

Example normalize_rightmost_wins :
  normalize "airlab/temperature/co2" "800" "airlab"
  = Ok {[ "co2_ppm" := 800%float ]}.
Proof. vm_compute. reflexivity. Qed.

Example normalize_malformed_example :
  normalize "airlab/sensor1/state" "not-json{{{" "airlab" = Ok ∅.
Proof. vm_compute. reflexivity. Qed.


(** ** C4: the structured-object shape *)

Section ObjectShape.

(** [float] raises nothing but [ValueError], [TypeError] and
    [OverflowError]. *)
Lemma py_float_cases (value : pyval) :
  (exists f, py_float value = Ok f)
  \/ py_float value = Raise ValueError
  \/ py_float value = Raise TypeError
  \/ py_float value = Raise OverflowError.
Proof.
  destruct value as [|b|z|f|s|l|items]; cbn [py_float]; eauto.
  - unfold PyFloat.of_int.
    destruct (binary_normalize prec emax z 0 false); eauto.
  - destruct (of_str_cases s) as [H|H]; eauto.
Qed.

(** Short of an overflow, [try_float] is the coercion. *)
Lemma try_float_coerce (value : pyval) :
  py_float value <> Raise OverflowError ->
  try_float value = Ok (coerce value).
Proof.
  intros H. unfold try_float, coerce.
  destruct (py_float_cases value) as [[f E]|[E|[E|E]]]; rewrite E;
    try reflexivity.
  contradiction.
Qed.

(** The loop of [parse_json_payload] stores the kept entries in order. *)
Lemma parse_items_kept (items : list (string * pyval)) :
  forallb (fun kv => negb (overflows kv)) items = true ->
  forall acc, parse_items items acc = Ok (foldl store acc (kept_entries items)).
Proof.
  induction items as [|[key value] rest IH]; intros H acc; [reflexivity|].
  cbn [forallb] in H. apply andb_true_iff in H as [Hkv Hrest].
  unfold kept_entries. cbn [parse_items omap list_omap fst snd].
  fold (kept_entries rest).
  unfold overflows in Hkv. cbn [fst snd] in Hkv.
  destruct (canonicalize key) as [canon|] eqn:Ec; cbn; [|apply IH; exact Hrest].
  rewrite (canonical_truthy _ _ Ec).
  rewrite try_float_coerce
    by (intros E; rewrite E in Hkv; discriminate).
  cbn. destruct (coerce value) as [f|]; cbn; apply IH; exact Hrest.
Qed.

(** After the stores, a metric holds the value of its last entry, or what
    it held before. *)
Lemma foldl_store_lookup (l : list (string * float)) :
  forall (acc : gmap string float) (m : string),
    foldl store acc l !! m =
    match last_value m l with
    | Some g => Some g
    | None => acc !! m
    end.
Proof.
  induction l as [|[k f] rest IH]; intros acc m; [reflexivity|].
  cbn [foldl last_value]. rewrite IH.
  destruct (last_value m rest); [reflexivity|].
  unfold store. cbn [fst snd].
  destruct (String.eqb_spec k m) as [->|Hne].
  - apply lookup_insert_eq.
  - apply lookup_insert_ne. exact Hne.
Qed.

Lemma last_value_elem (m : string) (f : float) (l : list (string * float)) :
  last_value m l = Some f -> (m, f) ∈ l.
Proof.
  induction l as [|[k g] rest IH]; [discriminate|].
  cbn [last_value]. destruct (last_value m rest) as [h|].
  - intros [= ->]. right. apply IH. reflexivity.
  - destruct (String.eqb_spec k m) as [->|]; [|discriminate].
    intros [= ->]. left.
Qed.

Lemma last_value_none (m : string) (l : list (string * float)) :
  m ∉ l.*1 -> last_value m l = None.
Proof.
  induction l as [|[k g] rest IH]; [reflexivity|].
  cbn [last_value fmap list_fmap fst]. intros H.
  apply not_elem_of_cons in H as [Hne H].
  rewrite (IH H). destruct (String.eqb_spec k m); congruence.
Qed.

(** Where no two entries share a metric, the last entry of a metric is
    its only one. *)
Lemma last_value_NoDup (m : string) (f : float) (l : list (string * float)) :
  NoDup l.*1 -> (m, f) ∈ l -> last_value m l = Some f.
Proof.
  induction l as [|[k g] rest IH]; intros Hnd Hin; [inversion Hin|].
  cbn [fmap list_fmap fst] in Hnd. apply NoDup_cons in Hnd as [Hk Hnd].
  cbn [last_value].
  apply elem_of_cons in Hin as [[= -> ->]|Hin].
  - rewrite (last_value_none _ _ Hk), String.eqb_refl. reflexivity.
  - rewrite (IH Hnd Hin). reflexivity.
Qed.

End ObjectShape.

(** Two aliases of one metric in one object: the later entry wins. *)
Example parse_json_later_alias_wins :
  parse_json_payload (Json.text "{'co2': 1, 'carbon_dioxide': 2}")
  = Ok {[ "co2_ppm" := 2%float ]}.
Proof. vm_compute. reflexivity. Qed.




(** ** The decoder uses no more fuel than [loads] gives *)

Module JsonFacts.
Import Json.

Lemma lstrip_length (p : ascii -> bool) (s : string) :
  String.length (PyStr.lstrip_by p s) <= String.length s.
Proof.
  induction s as [|c s IH]; cbn [PyStr.lstrip_by String.length]; [lia|].
  destruct (p c); cbn [String.length]; lia.
Qed.

Lemma skip_ws_length (s : string) :
  String.length (skip_ws s) <= String.length s.
Proof. apply lstrip_length. Qed.

Lemma drop_length (n : nat) (s : string) :
  String.length (PyStr.drop n s) <= String.length s.
Proof.
  revert s. induction n as [|n IH]; intros s; [destruct s; cbn; lia|].
  destruct s as [|c s]; cbn [PyStr.drop String.length]; [lia|].
  specialize (IH s). lia.
Qed.

Lemma digits_length (s : string) :
  forall (acc : Z) (n : nat),
    String.length (PyFloat.digits acc n s).2 <= String.length s.
Proof.
  induction s as [|c s IH]; intros acc n; cbn [PyFloat.digits]; [cbn; lia|].
  destruct (PyFloat.is_digit c); cbn [snd String.length]; [|lia].
  specialize (IH (10 * acc + PyFloat.digit_val c)%Z (S n)). lia.
Qed.

(** [scanstring] reads at least the closing quote, and raises nothing but
    [JSONDecodeError]. *)
Lemma scan_length (s : string) :
  forall m : scan_mode,
    match scan m s with
    | Ok (_, rest) => String.length rest < String.length s
    | Raise e => e = JSONDecodeError
    end.
Proof.
  assert (Hpush : forall c (r : result (string * string)) (n : nat),
             match r with
             | Ok (_, rest) => String.length rest < n
             | Raise e => e = JSONDecodeError
             end ->
             match push c r with
             | Ok (_, rest) => String.length rest < S n
             | Raise e => e = JSONDecodeError
             end).
  { intros c [[t rest]|e] n H; cbn; [lia|exact H]. }
  assert (Hstep : forall (r : result (string * string)) (n : nat),
             match r with
             | Ok (_, rest) => String.length rest < n
             | Raise e => e = JSONDecodeError
             end ->
             match r with
             | Ok (_, rest) => String.length rest < S n
             | Raise e => e = JSONDecodeError
             end).
  { intros [[t rest]|e] n H; [lia|exact H]. }
  induction s as [|c s IH]; intros m; cbn [scan String.length];
    [reflexivity|].
  destruct m as [| |k acc].
  - destruct (Ascii.eqb c dquote); [cbn; lia|].
    destruct (N.ltb _ _); [reflexivity|].
    destruct (Ascii.eqb c backslash); [apply Hstep, IH|apply Hpush, IH].
  - destruct (Ascii.eqb c "u"); [apply Hstep, IH|].
    destruct (unescape c); [apply Hpush, IH|reflexivity].
  - destruct (hex_val c); [|reflexivity].
    destruct k; [apply Hpush, IH|apply Hstep, IH].
Qed.

Lemma scanstring_length (s t rest : string) :
  scanstring s = Ok (t, rest) -> String.length rest < String.length s.
Proof.
  intros H. pose proof (scan_length s Plain) as L.
  unfold scanstring in H. rewrite H in L. exact L.
Qed.

Lemma scanstring_error (s : string) (e : exn) :
  scanstring s = Raise e -> e = JSONDecodeError.
Proof.
  intros H. pose proof (scan_length s Plain) as L.
  unfold scanstring in H. rewrite H in L. exact L.
Qed.

Lemma scan_exponent_length (s : string) :
  match scan_exponent s with
  | Some (_, rest) => String.length rest <= String.length s
  | None => True
  end.
Proof.
  assert (H : forall (neg : bool) (u : string),
             String.length u <= String.length s ->
             match
               match PyFloat.digits 0 0 u with
               | (v, S _, rest) => Some (if neg then (- v)%Z else v, rest)
               | _ => None
               end
             with
             | Some (_, rest) => String.length rest <= String.length s
             | None => True
             end).
  { intros neg u Hu. pose proof (digits_length u 0%Z 0) as L.
    destruct (PyFloat.digits 0 0 u) as [[v [|n]] rest]; [exact I|].
    cbn [snd] in L. lia. }
  unfold scan_exponent. destruct s as [|c r]; [exact I|].
  destruct (Ascii.eqb c "-"); [apply (H true r); cbn; lia|].
  destruct (Ascii.eqb c "+");
    [apply (H false r)|apply (H false (String c r))]; cbn; lia.
Qed.

Lemma scan_sign_length (s : string) :
  String.length (scan_sign s).2 <= String.length s.
Proof.
  destruct s as [|c r]; cbn [scan_sign]; [cbn; lia|].
  destruct (Ascii.eqb c "-"); cbn; lia.
Qed.

Lemma scan_int_length (s : string) :
  match scan_int s with
  | Some (_, _, rest) => String.length rest < String.length s
  | None => True
  end.
Proof.
  destruct s as [|c r]; cbn [scan_int]; [exact I|].
  destruct (PyFloat.is_digit c); [|exact I].
  destruct (Ascii.eqb c "0"); [cbn; lia|].
  pose proof (digits_length r (PyFloat.digit_val c) 1) as L.
  destruct (PyFloat.digits _ _ r) as [[v n] rest]. cbn in *. lia.
Qed.

Lemma scan_frac_length (ip : Z) (s : string) :
  String.length (scan_frac ip s).2 <= String.length s.
Proof.
  destruct s as [|d r]; cbn [scan_frac]; [cbn; lia|].
  destruct (Ascii.eqb d "."); [|cbn; lia].
  pose proof (digits_length r ip 0) as L.
  destruct (PyFloat.digits ip 0 r) as [[m [|k]] r']; cbn in *; lia.
Qed.

Lemma scan_exp_length (s : string) :
  String.length (scan_exp s).2 <= String.length s.
Proof.
  destruct s as [|d r]; cbn [scan_exp]; [cbn; lia|].
  destruct (Ascii.eqb d "e" || Ascii.eqb d "E"); [|cbn; lia].
  pose proof (scan_exponent_length r) as L.
  destruct (scan_exponent r) as [[e r']|]; cbn in *; lia.
Qed.

(** A number is at least one character long, and its value is an [int],
    a [float], or the [ValueError] of a literal that is too long. *)
Lemma scan_number_length (s : string) :
  match scan_number s with
  | Some (res, rest) =>
      String.length rest < String.length s
      /\ match res with
         | Ok _ => True
         | Raise e => e = ValueError
         end
  | None => True
  end.
Proof.
  unfold scan_number.
  pose proof (scan_sign_length s) as L0.
  destruct (scan_sign s) as [neg r0]. cbn [snd] in L0.
  pose proof (scan_int_length r0) as L1.
  destruct (scan_int r0) as [[[ip ni] r1]|]; [|exact I].
  pose proof (scan_frac_length ip r1) as L2.
  destruct (scan_frac ip r1) as [[m nf] r2]. cbn [snd] in L2.
  pose proof (scan_exp_length r2) as L3.
  destruct (scan_exp r2) as [ex r3]. cbn [snd] in L3.
  destruct nf, ex; try (split; [lia|exact I]).
  destruct (Nat.ltb _ _); (split; [lia|]); [reflexivity|exact I].
Qed.


Lemma skip_ws_cons (s r : string) (d : ascii) :
  skip_ws s = String d r -> String.length r < String.length s.
Proof.
  intros H. pose proof (skip_ws_length s) as L. rewrite H in L.
  cbn [String.length] in L. lia.
Qed.

Lemma startswith_drop (s p : string) :
  PyStr.startswith s p = true ->
  String.length (PyStr.drop (String.length p) s) + String.length p
  = String.length s.
Proof.
  revert s. induction p as [|a p IH]; intros s H; [cbn; lia|].
  destruct s as [|b s]; [discriminate|].
  cbn [PyStr.startswith] in H. apply andb_true_iff in H as [_ H].
  cbn [String.length PyStr.drop]. specialize (IH s H). lia.
Qed.

Lemma shorter_weaken (r : result (pyval * string)) (s s' : string) :
  shorter r s -> String.length s <= String.length s' -> shorter r s'.
Proof. destruct r as [[v rest]|e]; cbn; [lia|tauto]. Qed.

(** Adds what is known of the length of [u]. *)
Ltac bound u :=
  lazymatch u with
  | skip_ws ?x => pose proof (skip_ws_length x)
  | _ => idtac
  end.

Ltac shorter_step IH :=
  lazymatch goal with
  | |- shorter (Raise _) _ => exact I
  | |- shorter (Ok (_, _)) _ => cbn [shorter String.length] in *; lia
  | |- shorter (object_members _ ?u _) _ =>
      bound u;
      apply (shorter_weaken _ u); [apply IH|cbn [String.length] in *; lia]
  | |- shorter (array_elements _ ?u _) _ =>
      bound u;
      apply (shorter_weaken _ u); [apply IH|cbn [String.length] in *; lia]
  | |- shorter (match skip_ws ?u with _ => _ end) _ =>
      let E := fresh "E" in
      destruct (skip_ws u) as [|? ?] eqn:E; [|apply skip_ws_cons in E]
  | |- shorter (match scanstring ?u with _ => _ end) _ =>
      let E := fresh "E" in
      destruct (scanstring u) as [[? ?]|?] eqn:E;
      [apply scanstring_length in E|]
  | |- shorter (match scan_once ?f ?u with _ => _ end) _ =>
      let L := fresh "L" in
      bound u;
      pose proof (proj1 (IH u)) as L;
      destruct (scan_once f u) as [[? ?]|?]; cbn [shorter] in L
  | |- shorter (match scan_number ?u with _ => _ end) _ =>
      let L := fresh "L" in
      pose proof (scan_number_length u) as L;
      destruct (scan_number u) as [[[?|?] ?]|]
  | |- shorter (if PyStr.startswith ?u ?p then _ else _) _ =>
      let E := fresh "E" in
      destruct (PyStr.startswith u p) eqn:E;
      [apply startswith_drop in E|]
  | |- shorter (if ?b then _ else _) _ => destruct b
  end.

Lemma decode_shorter (fuel : nat) :
  forall s : string,
    shorter (scan_once fuel s) s
    /\ (forall pairs, shorter (object_members fuel s pairs) s)
    /\ (forall acc, shorter (array_elements fuel s acc) s).
Proof.
  induction fuel as [|fuel IH]; intros s; [repeat split|].
  split; [|split; [intros pairs|intros acc]].
  - cbn [scan_once]. destruct s as [|c r]; [exact I|].
    repeat shorter_step IH;
      cbn [shorter String.length PyStr.drop] in *; lia.
  - cbn [object_members].
    repeat shorter_step IH;
      cbn [shorter String.length PyStr.drop] in *; lia.
  - cbn [array_elements].
    repeat shorter_step IH;
      cbn [shorter String.length PyStr.drop] in *; lia.
Qed.


Ltac in_fuel_step IH :=
  lazymatch goal with
  | |- in_fuel (Raise _) => first [reflexivity|assumption|subst; reflexivity]
  | |- in_fuel (Ok _) => exact I
  | |- in_fuel (object_members _ ?u _) =>
      bound u; apply IH; cbn [String.length] in *; lia
  | |- in_fuel (array_elements _ ?u _) =>
      bound u; apply IH; cbn [String.length] in *; lia
  | |- in_fuel (match skip_ws ?u with _ => _ end) =>
      let E := fresh "E" in
      destruct (skip_ws u) as [|? ?] eqn:E; [|apply skip_ws_cons in E]
  | |- in_fuel (match scanstring ?u with _ => _ end) =>
      let E := fresh "E" in
      destruct (scanstring u) as [[? ?]|?] eqn:E;
      [apply scanstring_length in E|apply scanstring_error in E]
  | |- in_fuel (match scan_once ?f ?u with _ => _ end) =>
      let L := fresh "L" in
      let F := fresh "F" in
      bound u;
      pose proof (proj1 (decode_shorter f u)) as L;
      assert (F : in_fuel (scan_once f u))
        by (apply IH; cbn [String.length] in *; lia);
      destruct (scan_once f u) as [[? ?]|?]; cbn [shorter in_fuel] in L, F
  | |- in_fuel (match scan_number ?u with _ => _ end) =>
      let L := fresh "L" in
      pose proof (scan_number_length u) as L;
      destruct (scan_number u) as [[[?|?] ?]|]; [|destruct L as [_ L]|]
  | |- in_fuel (if ?b then _ else _) => destruct b
  end.

Lemma decode_in_fuel (fuel : nat) :
  forall s : string,
    (2 * String.length s + 1 <= fuel -> in_fuel (scan_once fuel s))
    /\ (forall pairs, 2 * String.length s + 1 <= fuel ->
                      in_fuel (object_members fuel s pairs))
    /\ (forall acc, 2 * String.length s + 2 <= fuel ->
                    in_fuel (array_elements fuel s acc)).
Proof.
  induction fuel as [|fuel IH]; intros s; [repeat split; intros; lia|].
  split; [intros Hf|split; [intros pairs Hf|intros acc Hf]].
  - cbn [scan_once]. destruct s as [|c r]; [reflexivity|].
    repeat in_fuel_step IH.
  - cbn [object_members]. repeat in_fuel_step IH.
  - cbn [array_elements]. repeat in_fuel_step IH.
Qed.

(** [json.loads] raises nothing but [JSONDecodeError] and [ValueError]:
    no text exhausts the fuel [loads] gives. *)
Lemma loads_raises (s : string) (e : exn) :
  loads s = Raise e -> is_ValueError e = true.
Proof.
  unfold loads.
  pose proof (skip_ws_length s) as L.
  assert (F : in_fuel (scan_once (2 * String.length s + 2) (skip_ws s)))
    by (apply decode_in_fuel; lia).
  destruct (scan_once _ (skip_ws s)) as [[v rest]|e']; cbn [in_fuel] in F.
  - destruct (skip_ws rest); [discriminate|]. intros [= <-]. reflexivity.
  - intros [= <-]. exact F.
Qed.

End JsonFacts.

(** ** C3: what the normalization lets through *)

(** [try_float] lets nothing through but [OverflowError]. *)
Lemma try_float_raises (value : pyval) (e : exn) :
  try_float value = Raise e -> e = OverflowError.
Proof.
  unfold try_float.
  destruct (py_float_cases value) as [[f E]|[E|[E|E]]]; rewrite E; cbn;
    congruence.
Qed.

Lemma parse_items_raises (items : list (string * pyval)) :
  forall (acc : gmap string float) (e : exn),
    parse_items items acc = Raise e ->
    e = OverflowError /\ existsb overflows items = true.
Proof.
  induction items as [|[key value] rest IH]; intros acc e; [discriminate|].
  cbn [parse_items existsb]. unfold overflows at 1. cbn [fst snd].
  destruct (canonicalize key) as [canon|] eqn:Ec;
    [|intros H; apply IH in H; exact H].
  rewrite (canonical_truthy _ _ Ec).
  destruct (try_float value) as [[f|]|e'] eqn:Ef; cbn.
  - intros H. apply IH in H as [-> ->].
    split; [reflexivity|apply orb_true_r].
  - intros H. apply IH in H as [-> ->].
    split; [reflexivity|apply orb_true_r].
  - intros [= <-]. pose proof (try_float_raises _ _ Ef) as ->.
    split; [reflexivity|].
    unfold try_float in Ef.
    destruct (py_float_cases value) as [[f E]|[E|[E|E]]]; rewrite E in Ef |- *;
      cbn in Ef; try discriminate.
    reflexivity.
Qed.

(** The normalization lets nothing through but the [OverflowError] of an
    integer beyond the floats under a metric key of a decoded object. *)
Lemma normalize_raises (topic payload base_topic : string) (e : exn) :
  normalize topic payload base_topic = Raise e ->
  e = OverflowError
  /\ exists items, Json.loads payload = Ok (PyDict items)
                   /\ existsb overflows items = true.
Proof.
  unfold normalize, parse_json_payload.
  destruct (Json.loads payload) as [data|e'] eqn:El; cbn.
  - destruct data as [|b|z|f|s|l|items]; cbn;
      try (rewrite parse_topic_value_scalar_shape; discriminate).
    destruct (parse_items items ∅) as [parsed|e'] eqn:Ep; cbn.
    + destruct (decide (parsed = ∅));
        [rewrite parse_topic_value_scalar_shape|]; discriminate.
    + apply parse_items_raises in Ep as [-> Ho]. cbn.
      intros [= <-]. split; [reflexivity|]. exists items. split; [reflexivity|exact Ho].
  - rewrite (JsonFacts.loads_raises _ _ El). cbn.
    rewrite parse_topic_value_scalar_shape. discriminate.
Qed.

Example parse_json_huge_int :
  parse_json_payload huge_int_payload = Raise OverflowError.
Proof. vm_compute. reflexivity. Qed.

(** C3 fails on the code: an integer beyond the floats under a metric key
    makes [float] raise [OverflowError], which neither [try_float] nor the
    handler catches, so the exception leaves [on_message]. *)
Theorem on_message_lets_overflow_escape :
  normalize "airlab/sensor1" huge_int_payload "airlab" = Raise OverflowError
  /\ forall (t : Z) (st : episode),
       on_message "airlab" t st
         {| msg_topic := "airlab/sensor1"; msg_payload := huge_int_payload |}
       = Raise OverflowError.
Proof.
  assert (H : normalize "airlab/sensor1" (PyStr.strip huge_int_payload) "airlab"
              = Raise OverflowError) by (vm_compute; reflexivity).
  split; [vm_compute; reflexivity|].
  intros t st. unfold on_message. cbn [msg_topic msg_payload].
  replace (PyStr.endswith "airlab/sensor1" "/config") with false
    by (vm_compute; reflexivity).
  rewrite H. reflexivity.
Qed.

(** ** The episode: what the handler keeps true *)

Section Handler.

Variable base_topic : string.

(** The handler either leaves the shared variables alone (a discovery
    message, an empty normalized reading), or raises before touching
    them, or merges a non-empty reading and sets the flag. *)
Lemma on_message_cases (t : Z) (st : episode) (m : MQTTMessage) :
  (accepted base_topic m = false
   /\ (on_message base_topic t st m = Ok st
       \/ exists e, on_message base_topic t st m = Raise e))
  \/ (accepted base_topic m = true
      /\ exists parsed : gmap string float,
           parsed <> ∅
           /\ normalize (msg_topic m) (PyStr.strip (msg_payload m)) base_topic
              = Ok parsed
           /\ on_message base_topic t st m =
              Ok {| reading := parsed ∪ reading st;
                    got_data := true;
                    first_msg_time :=
                      match first_msg_time st with
                      | [] => first_msg_time st ++ [t]
                      | _ :: _ => first_msg_time st
                      end |}).
Proof.
  unfold on_message, accepted.
  destruct (PyStr.endswith (msg_topic m) "/config"); cbn [negb andb];
    [left; split; [reflexivity|left; reflexivity]|].
  destruct (normalize _ _ _) as [parsed|e]; cbn;
    [|left; split; [reflexivity|right; eauto]].
  destruct (decide (parsed = ∅)) as [->|Hne].
  - left. rewrite bool_decide_eq_false_2 by (intros H; apply H; reflexivity).
    split; [reflexivity|left; reflexivity].
  - right. rewrite bool_decide_eq_true_2 by exact Hne.
    split; [reflexivity|]. exists parsed. repeat split; assumption.
Qed.

(** A non-empty reading merged into any reading gives a non-empty one. *)
Lemma union_nonempty (parsed rd : gmap string float) :
  parsed <> ∅ -> parsed ∪ rd <> ∅.
Proof.
  intros Hne H. apply Hne. apply map_empty. intros k.
  assert (Hk : (parsed ∪ rd) !! k = None) by (rewrite H; apply lookup_empty).
  apply lookup_union_None in Hk as [Hk _]. exact Hk.
Qed.

Lemma on_message_consistent (t : Z) (st st' : episode) (m : MQTTMessage) :
  on_message base_topic t st m = Ok st' -> consistent st -> consistent st'.
Proof.
  intros Hm Hst.
  destruct (on_message_cases t st m) as [[_ [H|[e H]]]|[_ (parsed & Hne & _ & H)]];
    rewrite H in Hm; [injection Hm as <-; exact Hst|discriminate|].
  injection Hm as <-. unfold consistent, flag_matches. cbn.
  split; split; intros _; try reflexivity.
  - apply union_nonempty. exact Hne.
  - destruct (first_msg_time st); discriminate.
Qed.

(** The flag, once set, stays set. *)
Lemma on_message_flag_stays (t : Z) (st st' : episode) (m : MQTTMessage) :
  on_message base_topic t st m = Ok st' ->
  got_data st = true -> got_data st' = true.
Proof.
  intros Hm Hst.
  destruct (on_message_cases t st m) as [[_ [H|[e H]]]|[_ (parsed & _ & _ & H)]];
    rewrite H in Hm; [injection Hm as <-; exact Hst|discriminate|].
  injection Hm as <-. reflexivity.
Qed.

(** The reading only grows: a metric once present stays present. *)
Lemma on_message_reading_grows (t : Z) (st st' : episode) (m : MQTTMessage) :
  on_message base_topic t st m = Ok st' ->
  dom (reading st) ⊆ dom (reading st').
Proof.
  intros Hm.
  destruct (on_message_cases t st m) as [[_ [H|[e H]]]|[_ (parsed & _ & _ & H)]];
    rewrite H in Hm; [injection Hm as <-; reflexivity|discriminate|].
  injection Hm as <-. cbn. rewrite dom_union. set_solver.
Qed.

(** ** The network thread *)

Lemma handle_pending (n : net) (m : Z * MQTTMessage) :
  pending (handle base_topic n m) = pending n.
Proof.
  unfold handle. destruct (alive n); [|reflexivity].
  destruct (on_message _ _ _ _); reflexivity.
Qed.

Lemma handle_consistent (n : net) (m : Z * MQTTMessage) :
  consistent (shared n) -> consistent (shared (handle base_topic n m)).
Proof.
  unfold handle. destruct (alive n); [|tauto].
  destruct (on_message _ _ _ _) eqn:E; cbn; [|tauto].
  eapply on_message_consistent. exact E.
Qed.

(** A message that is not accepted leaves the shared variables alone. *)
Lemma handle_unaccepted (n : net) (m : Z * MQTTMessage) :
  accepted base_topic m.2 = false ->
  shared (handle base_topic n m) = shared n.
Proof.
  intros Hm. unfold handle. destruct (alive n); [|reflexivity].
  destruct (on_message_cases m.1 (shared n) m.2)
    as [[_ [H|[e H]]]|[Hacc _]]; [rewrite H..|congruence]; reflexivity.
Qed.

(** What holds of the thread before the due messages and is kept by each
    of them holds after. *)
Lemma deliver_keeps (Q : net -> Prop) (upto : Z) (n : net) :
  (forall n' m, m ∈ pending n -> (m.1 <= upto)%Z -> Q n' ->
                Q (handle base_topic n' m)) ->
  Q {| shared := shared n; alive := alive n;
       pending := filter (fun m => (m.1 <=? upto)%Z = false) (pending n) |} ->
  Q (deliver base_topic upto n).
Proof.
  intros Hstep. unfold deliver.
  generalize ({| shared := shared n; alive := alive n;
                 pending := filter (fun m => (m.1 <=? upto)%Z = false)
                              (pending n) |}).
  assert (Hdue : forall m,
             m ∈ filter (fun m => (m.1 <=? upto)%Z = true) (pending n) ->
             m ∈ pending n /\ (m.1 <= upto)%Z).
  { intros m Hm. apply list_elem_of_filter in Hm as [Hle Hm].
    split; [exact Hm|apply Z.leb_le; exact Hle]. }
  induction (filter (fun m => (m.1 <=? upto)%Z = true) (pending n))
    as [|m due IH]; intros n0 H0; [exact H0|].
  cbn [foldl]. apply IH.
  - intros m' Hm'. apply Hdue. right. exact Hm'.
  - destruct (Hdue m) as [Hin Hle]; [left|]. apply Hstep; assumption.
Qed.

Lemma deliver_consistent (upto : Z) (n : net) :
  consistent (shared n) -> consistent (shared (deliver base_topic upto n)).
Proof.
  intros H.
  apply (deliver_keeps (fun n' => consistent (shared n'))); [|exact H].
  intros n' m _ _. apply handle_consistent.
Qed.

End Handler.

(** ** The polling loop *)

Section Polling.

Variables (base_topic : string) (deadline : Z) (sigint : option nat).

(** The loop stops by itself: with a turn of fuel for each 500 ms left
    and one to spare, the fuel does not run out. *)
Lemma poll_fuel_enough (fuel : nat) :
  forall s : poll_state,
    (1 <= fuel)%nat ->
    (deadline - now s <= poll_interval * (Z.of_nat fuel - 1))%Z ->
    (poll fuel base_topic deadline sigint s).2 <> OutOfFuel.
Proof.
  unfold poll_interval.
  induction fuel as [|fuel IH]; intros s Hpos Hfuel; [lia|].
  cbn [poll]. destruct (Z.ltb_spec (now s) deadline); [|discriminate].
  destruct (decide (sigint = Some (sleeps s))); [discriminate|].
  cbn zeta.
  match goal with
  | |- context [poll fuel _ _ _ ?s'] =>
      assert (Hnext := IH s' ltac:(lia)
                         ltac:(cbn [now]; unfold poll_interval; lia))
  end.
  destruct (first_msg_time _); [exact Hnext|].
  destruct (Z.leb _ _); [discriminate|exact Hnext].
Qed.

(** Without a signal the loop is not interrupted. *)
Lemma poll_not_interrupted (fuel : nat) :
  sigint = None ->
  forall s, (poll fuel base_topic deadline sigint s).2 <> Interrupted.
Proof.
  intros ->. induction fuel as [|fuel IH]; intros s; cbn [poll];
    [discriminate|].
  destruct (Z.ltb (now s) deadline); [|discriminate].
  destruct (decide (None = Some (sleeps s))); [discriminate|].
  cbn zeta. destruct (first_msg_time _); [apply IH|].
  destruct (Z.leb _ _); [discriminate|apply IH].
Qed.

(** The loop breaks on the collection window only once a first message
    has been recorded. *)
Lemma poll_completed (fuel : nat) :
  forall s,
    (poll fuel base_topic deadline sigint s).2 = Completed ->
    first_msg_time (shared (thread (poll fuel base_topic deadline sigint s).1))
    <> [].
Proof.
  induction fuel as [|fuel IH]; intros s; cbn [poll]; [discriminate|].
  destruct (Z.ltb (now s) deadline); [|discriminate].
  destruct (decide (sigint = Some (sleeps s))); [discriminate|].
  cbn zeta. destruct (first_msg_time _) eqn:E; [apply IH|].
  destruct (Z.leb _ _); [|apply IH].
  intros _. cbn [fst]. rewrite E. discriminate.
Qed.

(** What the thread keeps at every delivery up to the deadline, the loop
    keeps; the deadline lies a whole number of sleeps ahead. *)
Lemma poll_keeps (Q : net -> Prop) :
  (forall upto n, (upto <= deadline)%Z -> Q n ->
                  Q (deliver base_topic upto n)) ->
  forall (fuel : nat) (s : poll_state),
    (poll_interval | deadline - now s)%Z ->
    Q (thread s) ->
    Q (thread (poll fuel base_topic deadline sigint s).1).
Proof.
  intros Hstep. unfold poll_interval.
  induction fuel as [|fuel IH]; intros s [q Hq] Hs; cbn [poll];
    [exact Hs|].
  destruct (Z.ltb_spec (now s) deadline); [|exact Hs].
  destruct (decide (sigint = Some (sleeps s))); [exact Hs|].
  cbn zeta.
  match goal with
  | |- context [poll fuel _ _ _ ?s'] =>
      assert (Hnext : Q (thread (poll fuel base_topic deadline sigint s').1))
  end.
  { apply IH.
    - exists (q - 1)%Z. cbn [now]. unfold poll_interval. lia.
    - cbn [thread]. apply Hstep; [unfold poll_interval; lia|exact Hs]. }
  destruct (first_msg_time _); [exact Hnext|].
  destruct (Z.leb _ _); [|exact Hnext].
  cbn [fst thread]. apply Hstep; [unfold poll_interval; lia|exact Hs].
Qed.

End Polling.

(** ** One run of [read_airlab] *)

Section Run.

Variables (base_topic : string) (timeout : Z) (w : world).

Hypothesis connected : connect_error w = None.

Lemma disconnects_sleeps (k : nat) (rest : list bus_event) :
  disconnects ([Connect; LoopStart] ++ repeat Sleep k ++ rest)
  = disconnects rest.
Proof.
  unfold disconnects. cbn [app List.filter].
  induction k as [|k IH]; [reflexivity|exact IH].
Qed.

(** The run, read off the polling loop: the loop ends by the window, by
    the deadline or by an interrupt; the shared variables are consistent
    at the end; an interrupt is raised with no disconnect, and otherwise
    the loop is stopped and the client disconnected once, and the reading
    is returned when the flag is set. *)
Lemma read_airlab_run :
  let r := read_airlab base_topic timeout w in
  exists (s : poll_state) (how : loop_exit),
    ended r = Some how
    /\ how <> OutOfFuel
    /\ (sigint_at w = None -> how <> Interrupted)
    /\ final r = shared (thread s)
    /\ consistent (final r)
    /\ (how = Completed -> got_data (final r) = true)
    /\ match how with
       | Interrupted =>
           returned r = Raise KeyboardInterrupt
           /\ trace r = [Connect; LoopStart] ++ repeat Sleep (sleeps s) ++ [Sleep]
       | _ =>
           returned r = (if got_data (final r)
                         then Ok (Some (reading (final r))) else Ok None)
           /\ trace r = [Connect; LoopStart] ++ repeat Sleep (sleeps s)
                        ++ [LoopStop; Disconnect]
                        ++ (if got_data (final r) then []
                            else [Error "No data received within %ds"])
       end.
Proof.
  cbn zeta. unfold read_airlab. rewrite connected.
  set (start := {| now := clock0 w; thread := _; sleeps := 0 |}).
  set (deadline := (clock0 w + 1000 * timeout)%Z).
  pose proof (poll_fuel_enough base_topic deadline (sigint_at w)
                (S (Z.to_nat (2 * timeout))) start) as Hfuel.
  pose proof (fun H => poll_not_interrupted base_topic deadline (sigint_at w)
                (S (Z.to_nat (2 * timeout))) H start) as Hsig.
  pose proof (poll_completed base_topic deadline (sigint_at w)
                (S (Z.to_nat (2 * timeout))) start) as Hdone.
  pose proof (poll_keeps base_topic deadline (sigint_at w)
                (fun n => consistent (shared n))
                (fun upto n _ => deliver_consistent base_topic upto n)
                (S (Z.to_nat (2 * timeout))) start) as Hinv.
  destruct (poll _ _ _ _ start) as [s how]. cbn [fst snd] in *.
  assert (Hcons : consistent (shared (thread s))).
  { apply Hinv.
    - exists (2 * timeout)%Z. subst start deadline. cbn [now].
      unfold poll_interval. lia.
    - subst start. cbn. unfold consistent, flag_matches. cbn.
      split; split; intros H; try discriminate; exfalso; apply H; reflexivity. }
  assert (Hnofuel : how <> OutOfFuel).
  { apply Hfuel; [lia|]. subst start deadline. cbn [now].
    unfold poll_interval. lia. }
  assert (Hflag : how = Completed -> got_data (shared (thread s)) = true).
  { intros H. apply Hcons, Hdone, H. }
  exists s, how.
  destruct how; [| |clear Hflag|exfalso; apply Hnofuel; reflexivity];
    [destruct (got_data (shared (thread s))) eqn:Eg; cbn [negb]..|];
    cbn [ended final returned trace];
    refine (conj eq_refl (conj Hnofuel (conj Hsig (conj eq_refl
              (conj Hcons (conj _ (conj _ _)))))));
    try rewrite Eg; try exact Hflag; try reflexivity; try discriminate;
    try (rewrite <- ?app_assoc; reflexivity).
Qed.

(** Messages that are not accepted up to the deadline leave the flag
    unset. *)
Lemma read_airlab_none_accepted :
  (forall m, m ∈ inbox w -> (m.1 <= clock0 w + 1000 * timeout)%Z ->
             accepted base_topic m.2 = false) ->
  got_data (final (read_airlab base_topic timeout w)) = false.
Proof.
  intros Hnone. unfold read_airlab. rewrite connected.
  set (start := {| now := clock0 w; thread := _; sleeps := 0 |}).
  set (deadline := (clock0 w + 1000 * timeout)%Z) in *.
  pose proof (poll_keeps base_topic deadline (sigint_at w)
                (fun n => got_data (shared n) = false
                          /\ forall m, m ∈ pending n -> m ∈ inbox w)) as Hinv.
  destruct (Hinv) with (fuel := S (Z.to_nat (2 * timeout))) (s := start)
    as [Hgot _].
  - intros upto n Hupto [Hg Hsub].
    apply (deliver_keeps base_topic
             (fun n' => got_data (shared n') = false
                        /\ forall m, m ∈ pending n' -> m ∈ inbox w)).
    + intros n' m Hm Hle [Hg' Hsub'].
      rewrite handle_pending, handle_unaccepted; [split; assumption|].
      apply Hnone; [apply Hsub; exact Hm|lia].
    + cbn. split; [exact Hg|].
      intros m Hm. apply list_elem_of_filter in Hm as [_ Hm].
      apply Hsub. exact Hm.
  - exists (2 * timeout)%Z. subst start deadline. cbn [now].
    unfold poll_interval. lia.
  - subst start. cbn. split; [reflexivity|tauto].
  - destruct (poll _ _ _ _ start) as [s how]. cbn [fst] in Hgot.
    destruct how; cbn; rewrite ?Hgot; cbn; first [exact Hgot|reflexivity].
Qed.

End Run.

(** Whatever the world, [read_airlab] returns no reading, or a reading
    that is not empty, or is interrupted. *)
Lemma read_airlab_returns (base_topic : string) (timeout : Z) (w : world) :
  let r := read_airlab base_topic timeout w in
  returned r = Ok None
  \/ returned r = Raise KeyboardInterrupt
  \/ exists rd, returned r = Ok (Some rd) /\ rd <> ∅.
Proof.
  cbn zeta. destruct (connect_error w) as [e|] eqn:Hc.
  - left. unfold read_airlab. rewrite Hc. reflexivity.
  - destruct (read_airlab_run base_topic timeout w Hc)
      as (s & how & _ & _ & _ & _ & Hcons & _ & Hhow).
    destruct how; try (right; left; apply Hhow);
      (destruct Hhow as [Hret _];
       destruct (got_data (final (read_airlab base_topic timeout w))) eqn:Eg;
       [right; right; eexists; split; [exact Hret|apply Hcons; exact Eg]
       |left; exact Hret]).
Qed.

(** ** C8: what an episode returns *)

(** The episodes of the specification: two messages one second apart,
    and silence. *)
Example episode_two_messages :
  let r := read_airlab "airlab" 30
             (quiet_world
                [(0%Z, {| msg_topic := "airlab/state";
                          msg_payload := Json.text "{'co2_ppm': 800}" |});
                 (1000%Z, {| msg_topic := "airlab/state";
                             msg_payload := Json.text "{'temperature_c': 21}" |})]) in
  returned r
  = Ok (Some (<["co2_ppm" := 800%float]> {[ "temperature_c" := 21%float ]}))
  /\ ended r = Some Completed
  /\ stopped r = 3000%Z.
Proof. vm_compute. repeat split. Qed.

Example episode_silent :
  let r := read_airlab "airlab" 30 (quiet_world []) in
  returned r = Ok None /\ ended r = Some TimedOut /\ stopped r = 30000%Z.
Proof. vm_compute. repeat split. Qed.

Example episode_late_message :
  let r := read_airlab "airlab" 30
             (quiet_world
                [(29600%Z, {| msg_topic := "airlab/co2";
                              msg_payload := "800" |})]) in
  returned r = Ok (Some {[ "co2_ppm" := 800%float ]})
  /\ ended r = Some TimedOut.
Proof. vm_compute. repeat split. Qed.



(** ** C9: the disconnect *)

(** When the loop ends by the window or by the deadline, the loop is
    stopped and the client disconnected once, after the last sleep, and
    only the log follows. *)
Lemma read_airlab_disconnects_once (base_topic : string) (timeout : Z)
    (w : world) :
  connect_error w = None ->
  let r := read_airlab base_topic timeout w in
  (ended r = Some Completed \/ ended r = Some TimedOut) ->
  disconnects (trace r) = 1
  /\ exists (k : nat) (logged : list bus_event),
       trace r = [Connect; LoopStart] ++ repeat Sleep k
                 ++ [LoopStop; Disconnect] ++ logged
       /\ disconnects logged = 0.
Proof.
  intros Hc. cbn zeta.
  destruct (read_airlab_run base_topic timeout w Hc)
    as (s & how & Hend & _ & _ & _ & _ & _ & Hhow).
  rewrite Hend. intros [[= ->]|[= ->]]; destruct Hhow as [_ ->];
    rewrite disconnects_sleeps;
    (split; [destruct (got_data _); reflexivity|]);
    eexists _, _; (split; [reflexivity|destruct (got_data _); reflexivity]).
Qed.

(** An interrupt leaves [read_airlab] before [loop_stop] and
    [disconnect]. *)
Lemma read_airlab_interrupted_no_disconnect (base_topic : string)
    (timeout : Z) (w : world) :
  connect_error w = None ->
  let r := read_airlab base_topic timeout w in
  ended r = Some Interrupted ->
  returned r = Raise KeyboardInterrupt /\ disconnects (trace r) = 0.
Proof.
  intros Hc. cbn zeta.
  destruct (read_airlab_run base_topic timeout w Hc)
    as (s & how & Hend & _ & _ & _ & _ & _ & Hhow).
  rewrite Hend. intros [= ->]. destruct Hhow as [-> ->].
  rewrite disconnects_sleeps. split; reflexivity.
Qed.

(** C9 fails on the code: a [SIGINT] during the first sleep of the
    polling loop raises [KeyboardInterrupt] out of [read_airlab], which has
    then connected and started the network loop and disconnects never. *)
Theorem read_airlab_interrupt_skips_disconnect :
  let r := read_airlab "airlab" 30 interrupted_world in
  returned r = Raise KeyboardInterrupt
  /\ trace r = [Connect; LoopStart; Sleep]
  /\ disconnects (trace r) = 0.
Proof. vm_compute. repeat split. Qed.

(** ** C10: the flag and the reading *)

(** The flag agrees with the reading before and after each message. *)
Lemma on_message_flag_matches (base_topic : string) (t : Z)
    (st st' : episode) (m : MQTTMessage) :
  flag_matches st ->
  on_message base_topic t st m = Ok st' ->
  flag_matches st'
  /\ dom (reading st) ⊆ dom (reading st')
  /\ (got_data st' = true <->
      got_data st = true \/ accepted base_topic m = true).
Proof.
  intros Hst Hm.
  split; [|split; [eapply on_message_reading_grows; exact Hm|]].
  - destruct (on_message_cases base_topic t st m)
      as [[_ [H|[e H]]]|[_ (parsed & Hne & _ & H)]];
      rewrite H in Hm; [injection Hm as <-; exact Hst|discriminate|].
    injection Hm as <-. unfold flag_matches. cbn.
    split; intros _; [apply union_nonempty; exact Hne|reflexivity].
  - destruct (on_message_cases base_topic t st m)
      as [[Hacc [H|[e H]]]|[Hacc (parsed & _ & _ & H)]];
      rewrite H in Hm; [injection Hm as <-|discriminate|injection Hm as <-].
    + rewrite Hacc. split; [tauto|intros [H'|H']; [exact H'|discriminate]].
    + cbn. tauto.
Qed.

(** The log of [single_reading] never holds the line of its
    empty-reading branch. *)
Lemma single_reading_never_logs_empty (base_topic : string) (w : world)
    (c : conn) :
  LogError "Empty reading from AirLab" ∉ log (single_reading base_topic w c).
Proof.
  unfold single_reading.
  destruct (read_airlab_returns base_topic default_timeout w)
    as [H|[H|(rd & H & Hne)]]; rewrite H; cbn [log].
  - intros Hin. apply list_elem_of_singleton in Hin. discriminate.
  - apply not_elem_of_nil.
  - destruct (decide (rd = ∅)); [contradiction|].
    destruct (validate_reading rd).
    + destruct (insert_reading c rd) as [c' [[]|e]]; cbn [log].
      * intros Hin. apply list_elem_of_singleton in Hin. discriminate.
      * apply not_elem_of_nil.
    + cbn [log]. intros Hin. apply list_elem_of_singleton in Hin. discriminate.
Qed.

(** C10. The flag agrees with the reading at the start of an episode,
    every message handled keeps the agreement, never shrinks the set of
    metrics, and sets the flag exactly when it is accepted (its non-empty
    normalized reading merged); the agreement holds at the end of every
    run; [read_airlab] returns no reading or a reading that is not empty
    (or is interrupted); and [single_reading] never takes its
    empty-reading branch. *)
Theorem flag_matches_reading_throughout :
  flag_matches episode_start
  /\ (forall (base_topic : string) (t : Z) (st st' : episode)
             (m : MQTTMessage),
         flag_matches st ->
         on_message base_topic t st m = Ok st' ->
         flag_matches st'
         /\ dom (reading st) ⊆ dom (reading st')
         /\ (got_data st' = true <->
             got_data st = true \/ accepted base_topic m = true))
  /\ (forall (base_topic : string) (timeout : Z) (w : world),
         let r := read_airlab base_topic timeout w in
         flag_matches (final r)
         /\ (returned r = Ok None
             \/ returned r = Raise KeyboardInterrupt
             \/ exists rd, returned r = Ok (Some rd) /\ rd <> ∅))
  /\ (forall (base_topic : string) (w : world) (c : conn),
         LogError "Empty reading from AirLab"
         ∉ log (single_reading base_topic w c)).
Proof.
  assert (Hstart : flag_matches episode_start).
  { unfold flag_matches. cbn. split; [discriminate|].
    intros H. exfalso. apply H. reflexivity. }
  split; [exact Hstart|].
  split; [exact on_message_flag_matches|].
  split; [|exact single_reading_never_logs_empty].
  intros base_topic timeout w. cbn zeta.
  split; [|apply read_airlab_returns].
  destruct (connect_error w) as [e|] eqn:Hc.
  - unfold read_airlab. rewrite Hc. exact Hstart.
  - destruct (read_airlab_run base_topic timeout w Hc)
      as (s & how & _ & _ & _ & _ & Hcons & _).
    apply Hcons.
Qed.

(** ** C1: the exit status of single-shot mode *)

Section Durable.

Variable r : gmap string float.

(** An attempt that succeeds commits the row; one that fails commits
    nothing. *)
Lemma attempt_write_committed (c : conn) :
  match (attempt_write c r).2 with
  | Ok _ => committed (attempt_write c r).1
            = committed c ++ staged c ++ [row_of r]
  | Raise _ => committed (attempt_write c r).1 = committed c
  end.
Proof.
  unfold attempt_write.
  destruct (head (faults c)) as [[[e|e]|]|]; reflexivity.
Qed.

(** The writer returns only after a commit of the row, and commits nothing
    when it raises. *)
Lemma insert_loop_durable (k : nat) :
  forall (a : nat) (c : conn),
    a + S k = max_retries ->
    match (insert_loop (seq a (S k)) c r).2 with
    | Ok _ => exists rows,
        committed (insert_loop (seq a (S k)) c r).1
        = committed c ++ rows ++ [row_of r]
    | Raise _ => committed (insert_loop (seq a (S k)) c r).1 = committed c
    end.
Proof.
  induction k as [|k IH]; intros a c Ha;
    change (seq a (S ?m)) with (a :: seq (S a) m);
    rewrite insert_loop_step;
    pose proof (attempt_write_committed c) as Hw;
    destruct (attempt_write c r) as [c1 [[]|e]]; cbn [fst snd] in *;
    try (eexists; exact Hw).
  - destruct (is_locked e && (a <? max_retries - 1)%nat) eqn:E;
      [|exact Hw].
    apply andb_true_iff in E as [_ E]. apply Nat.ltb_lt in E.
    unfold max_retries in *. lia.
  - destruct (is_locked e && (a <? max_retries - 1)%nat); [|exact Hw].
    specialize (IH (S a)
                  (record [Warning "Database locked, retrying (%d/%d)";
                           DbSleep (backoff a)] c1) ltac:(lia)).
    cbn [record committed] in IH. rewrite Hw in IH. exact IH.
Qed.

Lemma insert_reading_durable (c : conn) :
  match (insert_reading c r).2 with
  | Ok _ => exists rows,
      committed (insert_reading c r).1 = committed c ++ rows ++ [row_of r]
  | Raise _ => committed (insert_reading c r).1 = committed c
  end.
Proof. apply (insert_loop_durable 2 0 c eq_refl). Qed.

End Durable.

(** A reading that is too hot is rejected, nothing is written, and the
    process exits with status 0. *)
Example single_reading_rejected :
  let w := quiet_world
             [(100%Z, {| msg_topic := "airlab/state";
                         msg_payload :=
                           Json.text "{'temperature_c': 150.0, 'co2_ppm': 800.0}" |})] in
  let p := single_reading "airlab" w fresh_conn in
  returned (episode_run p)
  = Ok (Some (<["co2_ppm" := 800%float]> {[ "temperature_c" := 150%float ]}))
  /\ ending_of p = Returned
  /\ exit_code (ending_of p) = 0%Z
  /\ committed (db p) = []
  /\ log p = [LogWarning "Reading failed validation, not saved"].
Proof. vm_compute. repeat split. Qed.

Example single_reading_saved :
  let w := quiet_world
             [(100%Z, {| msg_topic := "airlab/state";
                         msg_payload :=
                           Json.text "{'temperature_c': 21.5, 'co2_ppm': 800.0}" |})] in
  let p := single_reading "airlab" w fresh_conn in
  exit_code (ending_of p) = 0%Z
  /\ committed (db p)
     = [[Some 800%float; Some 21.5%float; None; None; None; None]].
Proof. vm_compute. repeat split. Qed.

Example single_reading_no_data :
  let p := single_reading "airlab" (quiet_world []) fresh_conn in
  exit_code (ending_of p) = 1%Z /\ committed (db p) = [].
Proof. vm_compute. repeat split. Qed.




(** * Further properties of the code *)

(** ** The canonicalizer and the normalizer *)

(** X1. Whatever [canonicalize] returns is one of the six metric names,
    is not the empty string (so the test [if canon:] of the parsers never
    drops a resolved name), and canonicalizes to itself. *)
Theorem canonicalize_returns_a_fixed_metric :
  forall s m : string,
    canonicalize s = Some m ->
    In m canonical_metrics /\ str_truthy m = true /\ canonicalize m = Some m.
Proof.
  intros s m H. pose proof (canonicalize_range s m H) as Hin.
  split; [exact Hin|]. cbn [canonical_metrics In] in Hin.
  repeat (destruct Hin as [<-|Hin]; [split; reflexivity|]). destruct Hin.
Qed.

Lemma canonicalize_returns_a_fixed_metric_witness :
  In "humidity_percent" canonical_metrics
  /\ str_truthy "humidity_percent" = true
  /\ canonicalize "humidity_percent" = Some "humidity_percent".
Proof.
  apply (canonicalize_returns_a_fixed_metric " RH "). reflexivity.
Defined.

Section ConfigTopics.

Lemma length_append (s t : string) :
  String.length (String.append s t) = String.length s + String.length t.
Proof.
  induction s as [|c s IH]; [reflexivity|].
  rewrite append_cons. cbn [String.length]. rewrite IH. reflexivity.
Qed.

Lemma drop_append (s t : string) :
  PyStr.drop (String.length s) (String.append s t) = t.
Proof.
  induction s as [|c s IH]; [destruct t; reflexivity|].
  rewrite append_cons. cbn [String.length PyStr.drop]. exact IH.
Qed.

Lemma endswith_append (s p : string) :
  PyStr.endswith (String.append s p) p = true.
Proof.
  unfold PyStr.endswith. rewrite length_append.
  replace (String.length s + String.length p - String.length p)
    with (String.length s) by lia.
  rewrite drop_append, String.eqb_refl, andb_true_r.
  apply Nat.leb_le. lia.
Qed.

End ConfigTopics.

(** X2. A message on a topic that ends in [/config] is ignored whatever
    its payload: the handler returns with the shared variables as they
    were, and raises nothing. *)
Theorem on_message_ignores_config_topics :
  forall (base_topic prefix payload : string) (t : Z) (st : episode),
    on_message base_topic t st
      {| msg_topic := String.append prefix "/config";
         msg_payload := payload |}
    = Ok st.
Proof.
  intros. unfold on_message. cbn [msg_topic msg_payload].
  rewrite endswith_append. reflexivity.
Qed.

Section Prefix.

Lemma strip_prefix_append (p s : string) :
  strip_prefix p (String.append p s) = Some s.
Proof.
  induction p as [|c p IH]; [destruct s; reflexivity|].
  rewrite append_cons. cbn [strip_prefix]. rewrite Ascii.eqb_refl. exact IH.
Qed.

Lemma strip_prefix_empty (s : string) : strip_prefix EmptyString s = Some s.
Proof. destruct s; reflexivity. Qed.

End Prefix.

(** X4. The base topic is removed as a plain prefix of the text and
    filters nothing: [parse_topic_value] gives for a topic what it gives,
    with an empty base, for the rest of the topic after the base, and for
    the whole topic when it does not start with the base. *)
Theorem parse_topic_value_base_is_a_text_prefix :
  forall topic payload base_topic rest : string,
    parse_topic_value topic payload base_topic
    = parse_topic_value (default topic (strip_prefix base_topic topic))
        payload EmptyString
    /\ parse_topic_value (String.append base_topic rest) payload base_topic
       = parse_topic_value rest payload EmptyString.
Proof.
  intros topic payload base_topic rest.
  rewrite !parse_topic_value_scalar_shape. unfold scalar_shape.
  rewrite !strip_prefix_empty, strip_prefix_append. split; reflexivity.
Qed.

Section Keys.

Lemma canonicalize_in_metrics (s m : string) :
  canonicalize s = Some m -> m ∈ metrics.
Proof.
  intros H. apply canonicalize_range in H.
  unfold metrics. apply elem_of_list_to_set, list_elem_of_In. exact H.
Qed.

Lemma parse_items_keys (items : list (string * pyval)) :
  forall acc rd : gmap string float,
    dom acc ⊆ metrics ->
    parse_items items acc = Ok rd ->
    dom rd ⊆ metrics.
Proof.
  induction items as [|[key value] rest IH]; intros acc rd Hacc;
    cbn [parse_items]; [intros [= <-]; exact Hacc|].
  destruct (canonicalize key) as [canon|] eqn:Ec; [|apply IH; exact Hacc].
  destruct (str_truthy canon); [|apply IH; exact Hacc].
  destruct (try_float value) as [[f|]|e]; cbn; [|apply IH; exact Hacc|discriminate].
  apply IH. rewrite dom_insert_L.
  apply union_least; [|exact Hacc].
  apply singleton_subseteq_l. eapply canonicalize_in_metrics. exact Ec.
Qed.

Lemma scalar_shape_keys (topic payload base_topic : string) :
  dom (scalar_shape topic payload base_topic) ⊆ metrics
  /\ size (scalar_shape topic payload base_topic) <= 1.
Proof.
  unfold scalar_shape.
  set (segments := PyStr.split "/" _).
  assert (H : forall m, rightmost_metric segments = Some m -> m ∈ metrics).
  { induction segments as [|s l IH]; intros m; cbn [rightmost_metric];
      [discriminate|].
    destruct (rightmost_metric l); [exact (IH m)|].
    apply canonicalize_in_metrics. }
  destruct (rightmost_metric segments) as [m|];
    [destruct (coerce (PyStr payload))|];
    rewrite ?dom_singleton_L, ?dom_empty_L, ?map_size_singleton, ?map_size_empty;
    (split; [|lia]); try apply empty_subseteq.
  apply singleton_subseteq_l, H. reflexivity.
Qed.

Lemma normalize_keys (topic payload base_topic : string)
    (rd : gmap string float) :
  normalize topic payload base_topic = Ok rd -> dom rd ⊆ metrics.
Proof.
  unfold normalize, parse_json_payload, try_except.
  assert (Hscalar : parse_topic_value topic payload base_topic = Ok rd ->
                    dom rd ⊆ metrics).
  { rewrite parse_topic_value_scalar_shape. intros [= <-].
    apply scalar_shape_keys. }
  destruct (Json.loads payload) as [data|e]; cbn.
  - destruct data as [| | | | | |items]; cbn;
      try (destruct (decide (∅ = ∅)) as [_|Hne];
           [exact Hscalar|destruct Hne; reflexivity]).
    destruct (parse_items items ∅) as [parsed|e] eqn:Ep; cbn.
    + destruct (decide (parsed = ∅)); [exact Hscalar|].
      intros [= <-]. eapply parse_items_keys; [|exact Ep].
      rewrite dom_empty_L. apply empty_subseteq.
    + destruct (is_ValueError e); cbn; [|discriminate].
      destruct (decide (∅ = ∅)) as [_|Hne];
        [exact Hscalar|destruct Hne; reflexivity].
  - destruct (is_ValueError e); cbn; [|discriminate].
    destruct (decide (∅ = ∅)) as [_|Hne];
      [exact Hscalar|destruct Hne; reflexivity].
Qed.

End Keys.

(** X5. Every key of a normalized reading is one of the six metric names,
    whatever the topic and the payload, so a normalized reading has at
    most six entries. *)
Theorem normalize_keys_are_metrics :
  forall (topic payload base_topic : string) (rd : gmap string float),
    normalize topic payload base_topic = Ok rd ->
    dom rd ⊆ metrics /\ size rd <= 6.
Proof.
  intros topic payload base_topic rd H.
  apply normalize_keys in H. split; [exact H|].
  rewrite <- size_dom. apply subseteq_size in H.
  replace 6 with (size metrics) by (vm_compute; reflexivity). exact H.
Qed.

Lemma normalize_keys_are_metrics_witness :
  dom (<["humidity_percent" := 45.5%float]>
         ({[ "temperature_c" := 21%float ]} : gmap string float)) ⊆ metrics
  /\ size (<["humidity_percent" := 45.5%float]>
             ({[ "temperature_c" := 21%float ]} : gmap string float)) <= 6.
Proof.
  apply (normalize_keys_are_metrics "airlab/state"
           (Json.text "{'rh': '45.5', 'Temp': 21, 'battery': 3}") "airlab").
  vm_compute. reflexivity.
Defined.
(** ** The validator and the row *)

Section ValidatorMore.

Lemma validate_reading_in_range (rd : gmap string float) :
  validate_reading rd = true
  <-> forall key value, rd !! key = Some value -> item_in_range key value.
Proof.
  unfold validate_reading. rewrite validate_items_Forall, Forall_forall.
  split.
  - intros H key value Hk. apply (H (key, value)).
    apply elem_of_map_to_list. exact Hk.
  - intros H [key value] Hin. apply H, elem_of_map_to_list. exact Hin.
Qed.

End ValidatorMore.

(** X6. Validation goes with merging and with dropping entries: the
    merge of two readings that pass passes, and every part of a reading
    that passes passes. *)
Theorem validate_reading_merge_and_part :
  forall m1 m2 : gmap string float,
    validate_reading m1 = true ->
    validate_reading m2 = true ->
    validate_reading (m1 ∪ m2) = true
    /\ (forall m : gmap string float, m ⊆ m1 -> validate_reading m = true).
Proof.
  intros m1 m2 H1 H2.
  rewrite validate_reading_in_range in H1, H2.
  split.
  - apply validate_reading_in_range. intros key value Hk.
    apply lookup_union_Some_raw in Hk as [Hk|[_ Hk]]; eauto.
  - intros m Hm. apply validate_reading_in_range. intros key value Hk.
    apply (H1 key value). eapply lookup_weaken; eassumption.
Qed.

Lemma validate_reading_merge_and_part_witness :
  validate_reading
    (({[ "co2_ppm" := 800%float ]} : gmap string float)
       ∪ {[ "temperature_c" := 21%float ]}) = true
  /\ (forall m : gmap string float,
         m ⊆ {[ "co2_ppm" := 800%float ]} -> validate_reading m = true).
Proof.
  apply (validate_reading_merge_and_part
           {[ "co2_ppm" := 800%float ]} {[ "temperature_c" := 21%float ]});
    vm_compute; reflexivity.
Defined.

(** X7. A reading that passes holds, for each of the six metrics, a
    number: no NaN and no infinity. *)
Theorem validated_metrics_are_finite :
  forall (rd : gmap string float) (key : string) (value : float),
    validate_reading rd = true ->
    In key canonical_metrics ->
    rd !! key = Some value ->
    value <> nan /\ value <> infinity /\ value <> neg_infinity.
Proof.
  intros rd key value Hv Hkey Hk.
  rewrite validate_reading_in_range in Hv. specialize (Hv key value Hk).
  unfold item_in_range in Hv. cbn [canonical_metrics In] in Hkey.
  repeat (destruct Hkey as [<-|Hkey];
          [specialize (Hv _ eq_refl);
           repeat split; intros ->; vm_compute in Hv; discriminate Hv|]).
  destruct Hkey.
Qed.

Lemma validated_metrics_are_finite_witness :
  800%float <> nan /\ 800%float <> infinity /\ 800%float <> neg_infinity.
Proof.
  apply (validated_metrics_are_finite {[ "co2_ppm" := 800%float ]} "co2_ppm");
    [vm_compute; reflexivity|cbn; tauto|vm_compute; reflexivity].
Defined.

Section Row.

(** The row of the columns [ks], read back. *)
Lemma row_lookup (rd : gmap string float) (ks : list string) (k : string) :
  (list_to_map
     (omap (fun kv : string * option float => v ← kv.2; Some (kv.1, v))
        (zip ks (map (fun column => rd !! column) ks)))
   : gmap string float) !! k
  = if decide (k ∈ ks) then rd !! k else None.
Proof.
  induction ks as [|c ks IH]; cbn [map zip zip_with omap list_omap fst snd].
  - rewrite decide_False by apply not_elem_of_nil. apply lookup_empty.
  - destruct (rd !! c) as [v|] eqn:Ec; cbn.
    + destruct (decide (c = k)) as [->|Hne].
      * rewrite lookup_insert_eq, decide_True by left. symmetry. exact Ec.
      * rewrite lookup_insert_ne by exact Hne. rewrite IH.
        destruct (decide (k ∈ ks)) as [Hin|Hnin].
        -- rewrite decide_True by (right; exact Hin). reflexivity.
        -- rewrite decide_False; [reflexivity|].
           intros H. apply elem_of_cons in H as [->|H]; [congruence|tauto].
    + rewrite IH. destruct (decide (c = k)) as [->|Hne].
      * rewrite (decide_True (P := k ∈ k :: ks)) by left.
        destruct (decide (k ∈ ks)); [reflexivity|symmetry; exact Ec].
      * destruct (decide (k ∈ ks)) as [Hin|Hnin].
        -- rewrite decide_True by (right; exact Hin). reflexivity.
        -- rewrite decide_False; [reflexivity|].
           intros H. apply elem_of_cons in H as [->|H]; [congruence|tauto].
Qed.

(** What the row of a reading reads back to. *)
Lemma reading_of_row_lookup (rd : gmap string float) (k : string) :
  reading_of_row (row_of rd) !! k
  = if decide (k ∈ metrics) then rd !! k else None.
Proof.
  unfold reading_of_row, row_of. rewrite row_lookup.
  assert (Hmem : k ∈ metrics <-> k ∈ canonical_metrics)
    by (unfold metrics; apply elem_of_list_to_set).
  destruct (decide (k ∈ canonical_metrics)) as [H|H];
    [rewrite decide_True by (apply Hmem; exact H)
    |rewrite decide_False by (rewrite Hmem; exact H)]; reflexivity.
Qed.

Lemma reading_of_row_of (rd : gmap string float) :
  dom rd ⊆ metrics -> reading_of_row (row_of rd) = rd.
Proof.
  intros Hdom. apply map_eq. intros k. rewrite reading_of_row_lookup.
  destruct (decide (k ∈ metrics)) as [_|Hk]; [reflexivity|].
  symmetry. apply not_elem_of_dom. intros H. apply Hk, Hdom, H.
Qed.

End Row.

(** X8. The row bound to the [INSERT] holds one column for each of the
    six metrics and nothing else: an entry of the reading under another
    key is left out without a word, and a reading over the six metrics is
    read back from its row. *)
Theorem row_of_keeps_the_six_metrics :
  forall rd : gmap string float,
    length (row_of rd) = 6
    /\ (forall k v, k ∉ metrics -> row_of (<[k := v]> rd) = row_of rd)
    /\ (forall k, reading_of_row (row_of rd) !! k
                  = if decide (k ∈ metrics) then rd !! k else None)
    /\ (dom rd ⊆ metrics -> reading_of_row (row_of rd) = rd).
Proof.
  intros rd.
  split; [reflexivity|].
  split; [|split; [apply reading_of_row_lookup|apply reading_of_row_of]].
  intros k v Hk. unfold row_of.
  apply map_ext_in. intros c Hc.
  apply lookup_insert_ne. intros ->.
  apply Hk. unfold metrics. apply elem_of_list_to_set, list_elem_of_In, Hc.
Qed.
(** ** The writer and single-shot mode *)

Section WriterMore.

Variable r : gmap string float.

(** With no fault at [commit], an attempt that fails leaves the table and
    the open transaction as they were. *)
Lemma attempt_write_execute_fault (c : conn) :
  faults_at_execute (faults c) = true ->
  faults_at_execute (faults (attempt_write c r).1) = true
  /\ match (attempt_write c r).2 with
     | Ok _ => committed (attempt_write c r).1
               = committed c ++ staged c ++ [row_of r]
               /\ staged (attempt_write c r).1 = []
     | Raise _ => committed (attempt_write c r).1 = committed c
                  /\ staged (attempt_write c r).1 = staged c
     end.
Proof.
  unfold attempt_write.
  destruct (faults c) as [|[[e|e]|] rest]; cbn; intros H;
    try discriminate; repeat split; exact H.
Qed.

Lemma insert_loop_execute_faults (k : nat) :
  forall (a : nat) (c : conn),
    a + S k = max_retries ->
    faults_at_execute (faults c) = true ->
    match (insert_loop (seq a (S k)) c r).2 with
    | Ok _ => committed (insert_loop (seq a (S k)) c r).1
              = committed c ++ staged c ++ [row_of r]
              /\ staged (insert_loop (seq a (S k)) c r).1 = []
    | Raise _ => committed (insert_loop (seq a (S k)) c r).1 = committed c
                 /\ staged (insert_loop (seq a (S k)) c r).1 = staged c
    end.
Proof.
  induction k as [|k IH]; intros a c Ha Hf;
    change (seq a (S ?m)) with (a :: seq (S a) m);
    rewrite insert_loop_step;
    destruct (attempt_write_execute_fault c Hf) as [Hf' Hw];
    destruct (attempt_write c r) as [c1 [[]|e]]; cbn [fst snd] in *;
    try exact Hw.
  - destruct (is_locked e && (a <? max_retries - 1)%nat) eqn:E; [|exact Hw].
    apply andb_true_iff in E as [_ E]. apply Nat.ltb_lt in E.
    unfold max_retries in *. lia.
  - destruct (is_locked e && (a <? max_retries - 1)%nat); [|exact Hw].
    specialize (IH (S a)
                  (record [Warning "Database locked, retrying (%d/%d)";
                           DbSleep (backoff a)] c1) ltac:(lia) Hf').
    cbn [record committed staged] in IH.
    destruct Hw as [Hw1 Hw2]. rewrite Hw1, Hw2 in IH. exact IH.
Qed.

(** The writer does not close the connection. *)
Lemma insert_loop_journal (l : list nat) :
  forall c : conn,
    exists j, journal (insert_loop l c r).1 = journal c ++ j /\ closes j = 0.
Proof.
  induction l as [|a l IH]; intros c.
  - exists []. cbn. rewrite app_nil_r. split; reflexivity.
  - rewrite insert_loop_step.
    assert (Hw : exists j, journal (attempt_write c r).1 = journal c ++ j
                           /\ closes j = 0).
    { unfold attempt_write.
      destruct (head (faults c)) as [[[e|e]|]|]; cbn;
        eexists; split; reflexivity. }
    destruct Hw as (j & Hj & Hc).
    destruct (attempt_write c r) as [c1 [[]|e]]; cbn [fst snd] in *;
      [exists j; split; assumption|].
    destruct (is_locked e && (a <? max_retries - 1)%nat);
      [|exists j; split; assumption].
    destruct (IH (record [Warning "Database locked, retrying (%d/%d)";
                          DbSleep (backoff a)] c1)) as (j2 & Hj2 & Hc2).
    exists (j ++ [Warning "Database locked, retrying (%d/%d)";
                  DbSleep (backoff a)] ++ j2).
    split.
    + rewrite Hj2. cbn [record journal]. rewrite Hj, <- !app_assoc. reflexivity.
    + unfold closes in *. rewrite !List.filter_app, !length_app, Hc, Hc2.
      reflexivity.
Qed.

End WriterMore.

(** X9. When the engine's faults strike at [execute] only, a call of
    [insert_reading] that returns has committed the row once, together
    with what the transaction already held, and left no transaction open;
    a call that raises has changed neither the table nor the
    transaction. *)
Theorem insert_reading_writes_once_or_nothing :
  forall (c : conn) (rd : gmap string float),
    faults_at_execute (faults c) = true ->
    match (insert_reading c rd).2 with
    | Ok _ => committed (insert_reading c rd).1
              = committed c ++ staged c ++ [row_of rd]
              /\ staged (insert_reading c rd).1 = []
    | Raise _ => committed (insert_reading c rd).1 = committed c
                 /\ staged (insert_reading c rd).1 = staged c
    end.
Proof.
  intros c rd H. apply (insert_loop_execute_faults rd 2 0 c eq_refl H).
Qed.

Lemma insert_reading_writes_once_or_nothing_witness :
  let c := {| committed := []; staged := [];
              faults := [Some (ExecuteRaises
                                 (OperationalError "database is locked"))];
              journal := [] |} in
  let rd : gmap string float := {[ "co2_ppm" := 800%float ]} in
  match (insert_reading c rd).2 with
  | Ok _ => committed (insert_reading c rd).1
            = committed c ++ staged c ++ [row_of rd]
            /\ staged (insert_reading c rd).1 = []
  | Raise _ => committed (insert_reading c rd).1 = committed c
               /\ staged (insert_reading c rd).1 = staged c
  end.
Proof.
  exact (insert_reading_writes_once_or_nothing
           {| committed := []; staged := [];
              faults := [Some (ExecuteRaises
                                 (OperationalError "database is locked"))];
              journal := [] |}
           {[ "co2_ppm" := 800%float ]} eq_refl).
Defined.

(** X10. When the first attempt meets a lock at [commit], after its
    [execute] went through, and the second attempt goes through, the
    retry runs the [INSERT] again in the transaction the failed commit
    left open: [insert_reading] returns and the row is committed twice. *)
Theorem insert_reading_commit_lock_writes_twice :
  forall (c : conn) (rd : gmap string float) (msg : string)
         (rest : list (option fault)),
    PyStr.contains "database is locked" msg = true ->
    faults c = Some (CommitRaises (OperationalError msg)) :: None :: rest ->
    (insert_reading c rd).2 = Ok tt
    /\ committed (insert_reading c rd).1
       = committed c ++ staged c ++ [row_of rd; row_of rd].
Proof.
  intros c rd msg rest Hmsg Hf.
  unfold insert_reading. change (seq 0 max_retries) with [0; 1; 2].
  rewrite insert_loop_step.
  assert (E1 : attempt_write c rd
               = ({| committed := committed c;
                     staged := staged c ++ [row_of rd];
                     faults := None :: rest;
                     journal := journal c ++ [Execute (row_of rd); Commit;
                                              Failed (OperationalError msg)] |},
                  Raise (OperationalError msg)))
    by (unfold attempt_write; rewrite Hf; reflexivity).
  rewrite E1. cbn [fst snd is_locked]. rewrite Hmsg.
  change (0 <? max_retries - 1)%nat with true. cbn [andb].
  rewrite insert_loop_step. unfold attempt_write, record.
  cbn [faults head tail fst snd committed staged].
  split; [reflexivity|]. rewrite <- !app_assoc. reflexivity.
Qed.

Lemma insert_reading_commit_lock_writes_twice_witness :
  let c := {| committed := []; staged := [];
              faults := [Some (CommitRaises
                                 (OperationalError "database is locked"));
                         None];
              journal := [] |} in
  let rd : gmap string float := {[ "co2_ppm" := 800%float ]} in
  (insert_reading c rd).2 = Ok tt
  /\ committed (insert_reading c rd).1
     = committed c ++ staged c ++ [row_of rd; row_of rd].
Proof.
  exact (insert_reading_commit_lock_writes_twice
           {| committed := []; staged := [];
              faults := [Some (CommitRaises
                                 (OperationalError "database is locked"));
                         None];
              journal := [] |}
           {[ "co2_ppm" := 800%float ]} "database is locked" []
           eq_refl eq_refl).
Defined.

(** X11. However [single_reading] ends - after a write, a rejected
    reading, a write that raised, [sys.exit(1)] or an interrupt - it
    closes the connection exactly once, as the last thing done to it; and
    when [read_airlab] gave no reading or raised, nothing else is done to
    the connection and the process does not exit with status 0. *)
Theorem single_reading_closes_the_connection_once :
  forall (base_topic : string) (w : world) (c : conn),
    let p := single_reading base_topic w c in
    exists j : list db_event,
      journal (db p) = journal c ++ j ++ [Close]
      /\ closes j = 0
      /\ (returned (episode_run p) = Ok None ->
          j = [] /\ ending_of p = SysExit 1)
      /\ (forall e, returned (episode_run p) = Raise e ->
                    j = [] /\ ending_of p = Uncaught e).
Proof.
  intros base_topic w c. cbn zeta. unfold single_reading.
  destruct (read_airlab_returns base_topic default_timeout w)
    as [H|[H|(rd & H & Hne)]]; rewrite H.
  - exists []. cbn [episode_run ending_of db record journal]. rewrite H.
    repeat split; intros; discriminate.
  - exists []. cbn [episode_run ending_of db record journal]. rewrite H.
    repeat split; try discriminate; congruence.
  - destruct (decide (rd = ∅)) as [|_]; [contradiction|].
    destruct (validate_reading rd).
    + destruct (insert_loop_journal rd (seq 0 max_retries) c) as (j & Hj & Hc).
      fold (insert_reading c rd) in Hj.
      destruct (insert_reading c rd) as [c' [[]|e]];
        cbn [fst episode_run ending_of db record journal] in *;
        rewrite H; exists j; rewrite Hj, <- app_assoc;
        repeat split; try assumption; intros; discriminate.
    + exists []. cbn [episode_run ending_of db record journal]. rewrite H.
      repeat split; intros; discriminate.
Qed.

(** X12. [single_reading] changes the table only by a write of a reading
    that passed validation: either the table is as before, or
    [read_airlab] returned a reading that is not empty and passes
    [validate_reading], [insert_reading] returned, and the row of that
    reading is the last of the table. *)
Theorem single_reading_writes_only_validated_readings :
  forall (base_topic : string) (w : world) (c : conn),
    let p := single_reading base_topic w c in
    committed (db p) = committed c
    \/ exists (rd : gmap string float) (rows : list (list (option float))),
         returned (episode_run p) = Ok (Some rd)
         /\ rd <> ∅
         /\ validate_reading rd = true
         /\ (insert_reading c rd).2 = Ok tt
         /\ committed (db p) = committed c ++ rows ++ [row_of rd].
Proof.
  intros base_topic w c. cbn zeta. unfold single_reading.
  destruct (read_airlab_returns base_topic default_timeout w)
    as [H|[H|(rd & H & Hne)]]; rewrite H; try (left; reflexivity).
  destruct (decide (rd = ∅)) as [|_]; [contradiction|].
  destruct (validate_reading rd) eqn:Hv; [|left; reflexivity].
  pose proof (insert_reading_durable rd c) as Hd.
  destruct (insert_reading c rd) as [c' [[]|e]] eqn:Hi;
    cbn [fst snd episode_run db record committed] in *.
  - right. destruct Hd as [rows Hd]. exists rd, rows. rewrite H.
    split; [reflexivity|]. split; [exact Hne|]. split; [exact Hv|].
    split; [rewrite Hi; reflexivity|exact Hd].
  - left. exact Hd.
Qed.
(** ** The handler and the episode *)



Section Clock.

Variables (base_topic : string) (deadline : Z) (sigint : option nat).

(** The clock of the loop: it moves by whole sleeps, not past the
    deadline; the loop leaves by the deadline only once it is reached, by
    the window only once the window has passed since the first message,
    and by an interrupt only before the deadline. *)
Lemma poll_clock (fuel : nat) :
  forall s : poll_state,
    let r := poll fuel base_topic deadline sigint s in
    (now s <= now r.1)%Z
    /\ (poll_interval | now r.1 - now s)%Z
    /\ ((poll_interval | deadline - now s)%Z ->
        (now r.1 <= Z.max (now s) deadline)%Z)
    /\ (r.2 = TimedOut -> (deadline <= now r.1)%Z)
    /\ (r.2 = Interrupted -> (now r.1 < deadline)%Z)
    /\ (r.2 = Completed ->
        exists first rest,
          first_msg_time (shared (thread r.1)) = first :: rest
          /\ (first + collect_window <= now r.1)%Z).
Proof.
  unfold poll_interval, collect_window.
  induction fuel as [|fuel IH]; intros s; cbn [poll].
  - cbn [fst snd]. repeat split; try discriminate; try lia.
    exists 0%Z. lia.
  - destruct (Z.ltb_spec (now s) deadline) as [Hlt|Hge].
    + destruct (decide (sigint = Some (sleeps s))).
      * cbn [fst snd]. repeat split; try discriminate; try lia.
        exists 0%Z. lia.
      * cbn zeta.
        match goal with
        | |- context [poll fuel _ _ _ ?s'] =>
            pose proof (IH s') as Hnext; set (next := s') in *
        end.
        assert (Hwrap :
          let r := poll fuel base_topic deadline sigint next in
          (now s <= now r.1)%Z
          /\ (500 | now r.1 - now s)%Z
          /\ ((500 | deadline - now s)%Z -> (now r.1 <= Z.max (now s) deadline)%Z)
          /\ (r.2 = TimedOut -> (deadline <= now r.1)%Z)
          /\ (r.2 = Interrupted -> (now r.1 < deadline)%Z)
          /\ (r.2 = Completed ->
              exists first rest,
                first_msg_time (shared (thread r.1)) = first :: rest
                /\ (first + 3000 <= now r.1)%Z)).
        { cbn zeta in Hnext |- *.
          destruct Hnext as (H1 & [q H2] & H3 & H4 & H5 & H6).
          subst next. cbn [now] in *. unfold poll_interval in *.
          split; [lia|]. split; [exists (q + 1)%Z; lia|].
          split; [|repeat split; assumption].
          intros [d Hd]. assert (1 <= d)%Z by lia.
          specialize (H3 ltac:(exists (d - 1)%Z; lia)). lia. }
        destruct (first_msg_time (shared (thread next))) as [|first rest] eqn:E;
          [exact Hwrap|].
        destruct (Z.leb _ _) eqn:Hw; [apply Z.leb_le in Hw|exact Hwrap].
        cbn [fst snd]. subst next. cbn [now] in *.
        unfold poll_interval, collect_window in *.
        split; [lia|]. split; [exists 1%Z; lia|].
        split; [intros [d Hd]; assert (1 <= d)%Z by lia; lia|].
        split; [discriminate|]. split; [discriminate|].
        intros _. exists first, rest. split; [exact E|lia].
    + cbn [fst snd]. repeat split; try discriminate; try lia.
      exists 0%Z. lia.
Qed.

End Clock.

Section RunMore.

Variables (base_topic : string) (timeout : Z) (w : world).

Hypothesis connected : connect_error w = None.

(** The run, as the result of the polling loop. *)
Lemma read_airlab_poll :
  let r := read_airlab base_topic timeout w in
  exists (s : poll_state) (how : loop_exit),
    poll (S (Z.to_nat (2 * timeout))) base_topic
      (clock0 w + 1000 * timeout)%Z (sigint_at w)
      {| now := clock0 w;
         thread := {| shared := episode_start; alive := true;
                      pending := inbox w |};
         sleeps := 0 |} = (s, how)
    /\ ended r = Some how
    /\ stopped r = now s
    /\ final r = shared (thread s)
    /\ (forall rd, returned r = Ok (Some rd) -> rd = reading (final r)).
Proof.
  cbn zeta. unfold read_airlab. rewrite connected.
  destruct (poll _ _ _ _ _) as [s how]. exists s, how.
  split; [reflexivity|].
  destruct how; try destruct (got_data (shared (thread s)));
    cbn [negb ended stopped final returned];
    repeat split; intros rd [= <-]; reflexivity.
Qed.

End RunMore.

(** X14. A connected run of [read_airlab] stops the polling loop a whole
    number of sleeps after it started and never after the deadline (at
    once when the timeout is not positive); it leaves by the deadline
    exactly at the deadline, by the collection window only when at least
    three seconds have passed since the first accepted message, and by an
    interrupt only before the deadline. *)
Theorem read_airlab_stops_by_the_deadline :
  forall (base_topic : string) (timeout : Z) (w : world),
    connect_error w = None ->
    let r := read_airlab base_topic timeout w in
    let deadline := (clock0 w + 1000 * timeout)%Z in
    (clock0 w <= stopped r <= Z.max (clock0 w) deadline)%Z
    /\ (poll_interval | stopped r - clock0 w)%Z
    /\ (ended r = Some TimedOut -> stopped r = Z.max (clock0 w) deadline)
    /\ (ended r = Some Interrupted -> (stopped r < deadline)%Z)
    /\ (ended r = Some Completed ->
        exists first rest,
          first_msg_time (final r) = first :: rest
          /\ (first + collect_window <= stopped r)%Z).
Proof.
  intros base_topic timeout w Hc. cbn zeta.
  destruct (read_airlab_poll base_topic timeout w Hc)
    as (s & how & Hp & -> & -> & -> & _).
  pose proof (poll_clock base_topic (clock0 w + 1000 * timeout)
                (sigint_at w) (S (Z.to_nat (2 * timeout)))
                {| now := clock0 w;
                   thread := {| shared := episode_start; alive := true;
                                pending := inbox w |};
                   sleeps := 0 |}) as Hk.
  cbn zeta in Hk. rewrite Hp in Hk. cbn [fst snd now] in Hk.
  destruct Hk as (H1 & H2 & H3 & H4 & H5 & H6).
  assert (Hal : (poll_interval | clock0 w + 1000 * timeout - clock0 w)%Z)
    by (exists (2 * timeout)%Z; unfold poll_interval; lia).
  specialize (H3 Hal).
  split; [lia|]. split; [exact H2|].
  split; [intros [= ->]; specialize (H4 eq_refl); lia|].
  split; [intros [= ->]; exact (H5 eq_refl)|].
  intros [= ->]. exact (H6 eq_refl).
Qed.

Lemma read_airlab_stops_by_the_deadline_witness :
  let w := quiet_world
             [(200%Z, {| msg_topic := "airlab/co2"; msg_payload := "800" |})] in
  let r := read_airlab "airlab" 30 w in
  let deadline := (clock0 w + 1000 * 30)%Z in
  (clock0 w <= stopped r <= Z.max (clock0 w) deadline)%Z
  /\ (poll_interval | stopped r - clock0 w)%Z
  /\ (ended r = Some TimedOut -> stopped r = Z.max (clock0 w) deadline)
  /\ (ended r = Some Interrupted -> (stopped r < deadline)%Z)
  /\ (ended r = Some Completed ->
      exists first rest,
        first_msg_time (final r) = first :: rest
        /\ (first + collect_window <= stopped r)%Z).
Proof.
  exact (read_airlab_stops_by_the_deadline "airlab" 30
           (quiet_world
              [(200%Z, {| msg_topic := "airlab/co2"; msg_payload := "800" |})])
           eq_refl).
Defined.
Section Provenance.

Variables (base_topic : string) (timeout : Z) (w : world).

Lemma handle_from_inbox (n : net) (m : Z * MQTTMessage) :
  m ∈ inbox w ->
  (m.1 <= clock0 w + 1000 * timeout)%Z ->
  from_inbox base_topic timeout w n ->
  from_inbox base_topic timeout w (handle base_topic n m).
Proof.
  intros Hin Hle (Hp & Hd & Hr). unfold from_inbox.
  rewrite handle_pending. split; [exact Hp|].
  unfold handle. destruct (alive n); [|split; assumption].
  destruct (on_message_cases base_topic m.1 (shared n) m.2)
    as [[_ [H|[e H]]]|[Hacc (parsed & Hne & Hn & H)]]; rewrite H;
    cbn [shared]; [split; assumption..|].
  cbn [reading]. split.
  - rewrite dom_union_L. apply union_least; [|exact Hd].
    eapply normalize_keys. exact Hn.
  - intros k v Hk. apply lookup_union_Some_raw in Hk as [Hk|[_ Hk]].
    + exists m, parsed. repeat split; assumption.
    + apply Hr. exact Hk.
Qed.

Lemma deliver_from_inbox (upto : Z) (n : net) :
  (upto <= clock0 w + 1000 * timeout)%Z ->
  from_inbox base_topic timeout w n ->
  from_inbox base_topic timeout w (deliver base_topic upto n).
Proof.
  intros Hupto Hn.
  apply (deliver_keeps base_topic (from_inbox base_topic timeout w)).
  - intros n' m Hm Hle. apply handle_from_inbox; [|lia].
    apply Hn. exact Hm.
  - destruct Hn as (Hp & Hd & Hr). unfold from_inbox. cbn.
    split; [|split; assumption].
    intros m Hm. apply list_elem_of_filter in Hm as [_ Hm]. apply Hp, Hm.
Qed.

Hypothesis connected : connect_error w = None.

Lemma read_airlab_from_inbox :
  exists n : net,
    final (read_airlab base_topic timeout w) = shared n
    /\ from_inbox base_topic timeout w n.
Proof.
  destruct (read_airlab_poll base_topic timeout w connected)
    as (s & how & Hp & _ & _ & Hf & _).
  exists (thread s). split; [exact Hf|].
  replace s with (poll (S (Z.to_nat (2 * timeout))) base_topic
                    (clock0 w + 1000 * timeout) (sigint_at w)
                    {| now := clock0 w;
                       thread := {| shared := episode_start; alive := true;
                                    pending := inbox w |};
                       sleeps := 0 |}).1 by (rewrite Hp; reflexivity).
  apply (poll_keeps base_topic (clock0 w + 1000 * timeout) (sigint_at w)
           (from_inbox base_topic timeout w)).
  - intros upto n. apply deliver_from_inbox.
  - exists (2 * timeout)%Z. cbn [now]. unfold poll_interval. lia.
  - unfold from_inbox. cbn. split; [tauto|].
    split; [rewrite dom_empty_L; apply empty_subseteq|].
    intros k v Hk. rewrite lookup_empty in Hk. discriminate.
Qed.

End Provenance.

(** X15. [read_airlab] makes nothing up: every entry of the reading it
    returns was carried, under that metric and with that value, by the
    normalized payload of a message of the episode that was accepted and
    was delivered by the deadline. *)
Theorem read_airlab_reading_comes_from_messages :
  forall (base_topic : string) (timeout : Z) (w : world)
         (rd : gmap string float) (k : string) (v : float),
    returned (read_airlab base_topic timeout w) = Ok (Some rd) ->
    rd !! k = Some v ->
    exists (m : Z * MQTTMessage) (parsed : gmap string float),
      m ∈ inbox w
      /\ (m.1 <= clock0 w + 1000 * timeout)%Z
      /\ accepted base_topic m.2 = true
      /\ normalize (msg_topic m.2) (PyStr.strip (msg_payload m.2)) base_topic
         = Ok parsed
      /\ parsed !! k = Some v.
Proof.
  intros base_topic timeout w rd k v Hret Hk.
  destruct (connect_error w) as [e|] eqn:Hc;
    [unfold read_airlab in Hret; rewrite Hc in Hret; discriminate|].
  destruct (read_airlab_poll base_topic timeout w Hc)
    as (_ & _ & _ & _ & _ & _ & Hrd).
  destruct (read_airlab_from_inbox base_topic timeout w Hc)
    as (n & Hf & _ & _ & Hfrom).
  apply Hfrom. rewrite <- Hf, <- (Hrd rd Hret). exact Hk.
Qed.

Lemma read_airlab_reading_comes_from_messages_witness :
  exists (m : Z * MQTTMessage) (parsed : gmap string float),
    m ∈ inbox (quiet_world
                 [(200%Z, {| msg_topic := "airlab/co2";
                             msg_payload := "800" |})])
    /\ (m.1 <= clock0 (quiet_world
                         [(200%Z, {| msg_topic := "airlab/co2";
                                     msg_payload := "800" |})])
               + 1000 * 30)%Z
    /\ accepted "airlab" m.2 = true
    /\ normalize (msg_topic m.2) (PyStr.strip (msg_payload m.2)) "airlab"
       = Ok parsed
    /\ parsed !! "co2_ppm" = Some 800%float.
Proof.
  apply (read_airlab_reading_comes_from_messages "airlab" 30
           (quiet_world
              [(200%Z, {| msg_topic := "airlab/co2"; msg_payload := "800" |})])
           {[ "co2_ppm" := 800%float ]});
    vm_compute; reflexivity.
Defined.

(** X16. The reading [read_airlab] returns has no key but the six
    metrics, so the row [insert_reading] binds holds all of it: the
    reading is read back from its row. *)
Theorem read_airlab_reading_fits_the_row :
  forall (base_topic : string) (timeout : Z) (w : world)
         (rd : gmap string float),
    returned (read_airlab base_topic timeout w) = Ok (Some rd) ->
    dom rd ⊆ metrics /\ reading_of_row (row_of rd) = rd.
Proof.
  intros base_topic timeout w rd Hret.
  destruct (connect_error w) as [e|] eqn:Hc;
    [unfold read_airlab in Hret; rewrite Hc in Hret; discriminate|].
  destruct (read_airlab_poll base_topic timeout w Hc)
    as (_ & _ & _ & _ & _ & _ & Hrd).
  destruct (read_airlab_from_inbox base_topic timeout w Hc)
    as (n & Hf & _ & Hdom & _).
  assert (Hd : dom rd ⊆ metrics)
    by (rewrite (Hrd rd Hret), Hf; exact Hdom).
  split; [exact Hd|]. apply reading_of_row_of. exact Hd.
Qed.

Lemma read_airlab_reading_fits_the_row_witness :
  dom ({[ "co2_ppm" := 800%float ]} : gmap string float) ⊆ metrics
  /\ reading_of_row (row_of {[ "co2_ppm" := 800%float ]})
     = {[ "co2_ppm" := 800%float ]}.
Proof.
  apply (read_airlab_reading_fits_the_row "airlab" 30
           (quiet_world
              [(200%Z, {| msg_topic := "airlab/co2"; msg_payload := "800" |})])).
  vm_compute. reflexivity.
Defined.
(** ** The configuration and the entry point *)

Section Padding.

Import PyStr.

Lemma lstrip_blank_app (l s : string) :
  blank l = true ->
  lstrip_by isspace (String.append l s) = lstrip_by isspace s.
Proof.
  induction l as [|c l IH]; intros H; [reflexivity|].
  cbn [blank] in H. apply andb_true_iff in H as [Hc Hl].
  rewrite append_cons. cbn [lstrip_by]. rewrite Hc. apply IH, Hl.
Qed.

Lemma rstrip_blank (r : string) :
  blank r = true -> rstrip_by isspace r = EmptyString.
Proof.
  induction r as [|c r IH]; intros H; [reflexivity|].
  cbn [blank] in H. apply andb_true_iff in H as [Hc Hr].
  cbn [rstrip_by]. rewrite (IH Hr), Hc. reflexivity.
Qed.

Lemma rstrip_app_blank (s r : string) :
  blank r = true ->
  rstrip_by isspace (String.append s r) = rstrip_by isspace s.
Proof.
  intros H. induction s as [|c s IH]; [apply rstrip_blank, H|].
  rewrite append_cons. cbn [rstrip_by]. rewrite IH. reflexivity.
Qed.

Lemma strip_app_blank (s r : string) :
  blank r = true -> strip (String.append s r) = strip s.
Proof.
  intros H. unfold strip, strip_by.
  induction s as [|c s IH].
  - change (String.append EmptyString r) with r.
    cbn [lstrip_by rstrip_by].
    assert (Hl : forall t, blank t = true -> lstrip_by isspace t = EmptyString).
    { induction t as [|d t IHt]; intros Ht; [reflexivity|].
      cbn [blank] in Ht. apply andb_true_iff in Ht as [Hd Ht].
      cbn [lstrip_by]. rewrite Hd. apply IHt, Ht. }
    rewrite (Hl r H). reflexivity.
  - rewrite append_cons. cbn [lstrip_by].
    destruct (isspace c); [exact IH|].
    rewrite <- append_cons. apply rstrip_app_blank, H.
Qed.

(** White space around a string does not change what [strip] gives. *)
Lemma strip_padded (l s r : string) :
  blank l = true -> blank r = true -> strip (padded l s r) = strip s.
Proof.
  intros Hl Hr. unfold padded.
  transitivity (strip (String.append s r)); [|apply strip_app_blank, Hr].
  unfold strip, strip_by. rewrite lstrip_blank_app by exact Hl. reflexivity.
Qed.

Lemma py_int_padded (l s r : string) :
  blank l = true -> blank r = true -> py_int (padded l s r) = py_int s.
Proof. intros Hl Hr. unfold py_int. rewrite strip_padded by assumption. reflexivity. Qed.

(** [int] of a [str] raises nothing but [ValueError]. *)
Lemma py_int_raises (s : string) (e : exn) :
  py_int s = Raise e -> e = ValueError.
Proof.
  unfold py_int.
  destruct (match strip s with
            | EmptyString => (false, strip s)
            | String c r =>
                if Ascii.eqb c "-" then (true, r)
                else if Ascii.eqb c "+" then (false, r) else (false, strip s)
            end) as [neg r].
  destruct (PyFloat.remove_underscores _ r) as [u|]; [|congruence].
  destruct (PyFloat.digits 0 0 u) as [[v [|n]] [|c rest]]; try congruence.
  destruct (Nat.ltb _ _); congruence.
Qed.

End Padding.



Section Entry.

(** A run that leaves the loop by the deadline does so at the deadline. *)
Lemma read_airlab_timed_out_at (base_topic : string) (timeout : Z)
    (w : world) :
  connect_error w = None ->
  ended (read_airlab base_topic timeout w) = Some TimedOut ->
  stopped (read_airlab base_topic timeout w)
  = Z.max (clock0 w) (clock0 w + 1000 * timeout).
Proof.
  intros Hc.
  destruct (read_airlab_poll base_topic timeout w Hc)
    as (s & how & Hp & -> & -> & _).
  pose proof (poll_clock base_topic (clock0 w + 1000 * timeout)
                (sigint_at w) (S (Z.to_nat (2 * timeout)))
                {| now := clock0 w;
                   thread := {| shared := episode_start; alive := true;
                                pending := inbox w |};
                   sleeps := 0 |}) as Hk.
  cbn zeta in Hk. rewrite Hp in Hk. cbn [fst snd now] in Hk.
  destruct Hk as (H1 & _ & H3 & H4 & _).
  intros [= ->]. specialize (H4 eq_refl).
  assert (Hal : (poll_interval | clock0 w + 1000 * timeout - clock0 w)%Z)
    by (exists (2 * timeout)%Z; unfold poll_interval; lia).
  specialize (H3 Hal). lia.
Qed.

End Entry.


